(** * Lead-lag pair-trading engine: order book and signal logic

    A shallow embedding of [order_book.hpp], [order_book.cpp],
    [pair_strategy.hpp] and [pair_strategy.cpp].

    - C++ [double] is IEEE-754 binary64, taken from the standard library's
      executable specification [SpecFloat] at precision 53 and maximal
      exponent 1024 (round to nearest, ties to even); every operation is
      rounded to binary64 on its own, as on x86-64 and AArch64.
    - C++ [int] is a 32-bit two's complement integer and [size_t] is
      64 bits wide (LP64 / LLP64).
    - [std::vector<std::unique_ptr<Order>>] is a list of [Order] values:
      every element is exclusively owned, so there is no aliasing.
    - Every method of [OrderBook] holds the single mutex of the book for
      its whole body; the methods are therefore modelled as atomic state
      transformers and a history is the list of the completed calls. *)

From Stdlib Require Import ZArith List Bool Lia Permutation.
From Stdlib Require Import Floats.SpecFloat.
Import ListNotations.
Local Open Scope Z_scope.

(** * The model *)

(** ** IEEE-754 binary64 *)

Definition double : Type := spec_float.

Module Double.

Definition prec : Z := 53.
Definition emax : Z := 1024.

Definition add : double -> double -> double := SFadd prec emax.
Definition sub : double -> double -> double := SFsub prec emax.
Definition div : double -> double -> double := SFdiv prec emax.
Definition opp : double -> double := SFopp.
Definition eqb : double -> double -> bool := SFeqb.
Definition ltb : double -> double -> bool := SFltb.
Definition leb : double -> double -> bool := SFleb.

(** The literal [0.0], which is also what the [int] literal [0] converts to. *)
Definition zero : double := S754_zero false.

(** The double nearest to [m * 2^e]; exact whenever [m] has at most 53
    significant bits and the result is in range. *)
Definition of_scaled (m e : Z) : double := binary_normalize prec emax m e false.

Definition one : double := Eval vm_compute in of_scaled 1 0.

(** Bit patterns that denote a binary64 number. *)
Definition valid (x : double) : bool := valid_binary prec emax x.

Definition is_finite (x : double) : bool :=
  match x with S754_zero _ | S754_finite _ _ _ => true | _ => false end.

End Double.

Declare Scope double_scope.
Delimit Scope double_scope with dbl.
Infix "+" := Double.add : double_scope.
Infix "-" := Double.sub : double_scope.
Infix "/" := Double.div : double_scope.
Notation "- x" := (Double.opp x) : double_scope.
Infix "==" := Double.eqb (at level 70, no associativity) : double_scope.
Infix "<?" := Double.ltb : double_scope.
Infix "<=?" := Double.leb : double_scope.

(** ** C++ [int] *)

Definition int_max : Z := 2 ^ 31 - 1.

(** Conversion of an unsigned value to [int]: reduction modulo [2^32] into
    the signed range. *)
Definition to_int (z : Z) : Z := (z + 2 ^ 31) mod 2 ^ 32 - 2 ^ 31.

(** ** order_book.hpp / order_book.cpp *)

Record Order : Type := mkOrder { price : double; quantity : double }.

Record OrderBook : Type := mkOrderBook { bids : list Order; asks : list Order }.

(** [OrderBook::OrderBook()] *)
Definition new_OrderBook : OrderBook := {| bids := []; asks := [] |}.

(** [vector::push_back] *)
Definition push_back {A : Type} (v : list A) (x : A) : list A := v ++ [x].

Definition add_order (price quantity : double) (is_bid : bool) (b : OrderBook)
  : OrderBook :=
  let new_order := mkOrder price quantity in
  if is_bid then {| bids := push_back (bids b) new_order; asks := asks b |}
  else {| bids := bids b; asks := push_back (asks b) new_order |}.

(** The two accumulation loops of [get_imbalance]. *)
Definition total_bid_vol (b : OrderBook) : double :=
  fold_left (fun vol bid => (vol + quantity bid)%dbl) (bids b) Double.zero.

Definition total_ask_vol (b : OrderBook) : double :=
  fold_left (fun vol ask => (vol + quantity ask)%dbl) (asks b) Double.zero.

Definition get_imbalance (b : OrderBook) : double :=
  let total_bid_vol := total_bid_vol b in
  let total_ask_vol := total_ask_vol b in
  let total_vol := (total_bid_vol + total_ask_vol)%dbl in
  if (total_vol == Double.zero)%dbl then Double.zero
  else ((total_bid_vol - total_ask_vol) / total_vol)%dbl.

Definition clear (b : OrderBook) : OrderBook := {| bids := []; asks := [] |}.

(** [vector::size] *)
Definition size {A : Type} (v : list A) : Z := Z.of_nat (length v).

Definition get_bid_count (b : OrderBook) : Z := to_int (size (bids b)).

Definition get_ask_count (b : OrderBook) : Z := to_int (size (asks b)).

(** ** pair_strategy.hpp / pair_strategy.cpp *)

Record PairStrategy : Type := mkPairStrategy {
  leader_book : OrderBook;
  follower_book : OrderBook;
  entry_threshold : double
}.

(** [PairStrategy::PairStrategy(double threshold)] with the default member
    initialisers of the two books. *)
Definition new_PairStrategy (threshold : double) : PairStrategy :=
  {| leader_book := new_OrderBook;
     follower_book := new_OrderBook;
     entry_threshold := threshold |}.

Definition on_market_data (symbol_type : Z) (price quantity : double)
    (is_bid : bool) (s : PairStrategy) : PairStrategy :=
  if symbol_type =? 0 then
    {| leader_book := add_order price quantity is_bid (leader_book s);
       follower_book := follower_book s;
       entry_threshold := entry_threshold s |}
  else if symbol_type =? 1 then
    {| leader_book := leader_book s;
       follower_book := add_order price quantity is_bid (follower_book s);
       entry_threshold := entry_threshold s |}
  else s.

Definition check_signals (s : PairStrategy) : Z :=
  let leader_obi := get_imbalance (leader_book s) in
  if (entry_threshold s <? leader_obi)%dbl then 1
  else if (leader_obi <? - entry_threshold s)%dbl then -1
  else 0.

Definition get_leader_imbalance (s : PairStrategy) : double :=
  get_imbalance (leader_book s).

(** The three values of the signal. *)
Definition Buy : Z := 1.
Definition Sell : Z := -1.
Definition NoSignal : Z := 0.

(** ** Histories of calls *)

(** One [add_order] call. *)
Record Call : Type := mkCall { c_price : double; c_quantity : double; c_is_bid : bool }.

Definition do_call (b : OrderBook) (c : Call) : OrderBook :=
  add_order (c_price c) (c_quantity c) (c_is_bid c) b.

(** A sequence of [add_order] calls, executed first to last. *)
Definition do_calls (cs : list Call) (b : OrderBook) : OrderBook :=
  fold_left do_call cs b.

(** The mutating methods of a book; the getters leave the state as it is. *)
Inductive Op : Type :=
| OpAdd (c : Call)
| OpClear.

Definition do_op (b : OrderBook) (o : Op) : OrderBook :=
  match o with
  | OpAdd c => do_call b c
  | OpClear => clear b
  end.

Definition do_ops (os : list Op) (b : OrderBook) : OrderBook :=
  fold_left do_op os b.

(** ** Specification-side notions *)

(** The sum of a sequence of quantities, added one after the other to [0.0]. *)
Fixpoint sum_from (acc : double) (qs : list double) : double :=
  match qs with
  | [] => acc
  | q :: qs' => sum_from (acc + q)%dbl qs'
  end.

Definition sum_quantities (os : list Order) : double :=
  sum_from Double.zero (map quantity os).

Definition op_is_clear (o : Op) : bool :=
  match o with OpClear => true | OpAdd _ => false end.

Definition op_is_bid (o : Op) : bool :=
  match o with OpAdd c => c_is_bid c | OpClear => false end.

Definition op_is_ask (o : Op) : bool :=
  match o with OpAdd c => negb (c_is_bid c) | OpClear => false end.

(** Number of elements of a history that satisfy [p]. *)
Definition count {A : Type} (p : A -> bool) (l : list A) : Z :=
  Z.of_nat (length (filter p l)).

(** The order that a call stores, and the side it does not go to. *)
Definition order_of_call (c : Call) : Order := mkOrder (c_price c) (c_quantity c).

Definition c_is_ask (c : Call) : bool := negb (c_is_bid c).

(** What [get_imbalance] can see of a call when prices are hidden. *)
Definition quantity_and_side (c : Call) : double * bool := (c_quantity c, c_is_bid c).

(** A quantity that is a binary64 number and is not below zero; [NaN] is
    excluded, [+infinity] and both zeros are included. *)
Definition nonneg (x : double) : bool := Double.valid x && (Double.zero <=? x)%dbl.

(** Membership in the closed interval from [-1.0] to [1.0]. *)
Definition in_unit_range (x : double) : bool :=
  (- Double.one <=? x)%dbl && (x <=? Double.one)%dbl.

(** ** Concrete inputs *)

(** The integer [n] as a double. *)
Definition dbl (n : Z) : double := Double.of_scaled n 0.

(** [-0.5] *)
Definition minus_half : double := Double.of_scaled (-1) (-1).

(** [2^53 = 9007199254740992], the first double whose successor is two away. *)
Definition two_53 : double := Double.of_scaled 1 53.

(** [2^1023], about [8.99e307]; twice this value is out of range. *)
Definition two_1023 : double := Double.of_scaled 1 1023.

(** The literal [0.2], that is [7205759403792794 * 2^-55]. *)
Definition threshold_0_2 : double := (dbl 2 / dbl 10)%dbl.

(** A bid of [bid] and an ask of [ask] at price [1.0]. *)
Definition bid_then_ask (bid ask : Z) : list Call :=
  [mkCall (dbl 1) (dbl bid) true; mkCall (dbl 1) (dbl ask) false].

(** Bids of [80], [20] and [7] mixed with asks of [50] and [3], at several
    prices. *)
Definition mixed_calls : list Call :=
  [mkCall (dbl 1) (dbl 80) true; mkCall (dbl 2) (dbl 50) false;
   mkCall (dbl 3) (dbl 20) true; mkCall (dbl 4) (dbl 3) false;
   mkCall (dbl 5) (dbl 7) true].

(** A history of [n] calls [add_order(1.0, 1.0, true)]. *)
Definition many_bids (n : nat) : list Op :=
  repeat (OpAdd (mkCall (dbl 1) (dbl 1) true)) n.

(** A strategy whose leader book received the given calls. *)
Definition feed_leader (cs : list Call) (s : PairStrategy) : PairStrategy :=
  fold_left (fun s c => on_market_data 0 (c_price c) (c_quantity c) (c_is_bid c) s) cs s.

(** ** Reading the rounding of [SpecFloat] *)

(** The value [m * 2^e] counted in units of [2^c], an integer when [c <= e]. *)
Definition scaled (c m e : Z) : Z := m * 2 ^ (e - c).

(** The mantissa of [1.0]; its exponent is [1 - prec]. *)
Definition one_mantissa (prec : Z) : positive := Z.to_pos (2 ^ (prec - 1)).

(** Whether bits were lost: the round bit or the sticky bit is set. *)
Definition inexact (mrs : shr_record) : bool := shr_r mrs || shr_s mrs.

Definition loc_inexact (l : location) : bool :=
  match l with loc_Exact => false | loc_Inexact _ => true end.

(** [mrs'] is [mrs] moved right by [n] places. *)
Definition Shifted (n : Z) (mrs mrs' : shr_record) : Prop :=
  shr_m mrs' = shr_m mrs / 2 ^ n /\
  inexact mrs' = negb (shr_m mrs mod 2 ^ n =? 0) || inexact mrs.

(** ** Sums that need no rounding *)

(** Whether [N * 2^emin], [N] not negative, is a number of the format: below
    its leading bit it has at most [prec] significant bits, and it is in
    range. *)
Definition fits_in (prec emax N : Z) : bool :=
  let e := SpecFloat.fexp prec emax (Zdigits2 N + SpecFloat.emin prec emax) in
  (0 <=? N) && (N mod 2 ^ (e - SpecFloat.emin prec emax) =? 0) && (e <=? emax - prec).

(** The value of a finite double counted in units of [2^-1074], the smallest
    positive double; an integer. *)
Definition units (x : double) : Z :=
  match x with
  | S754_finite false m e => scaled (SpecFloat.emin Double.prec Double.emax) (Z.pos m) e
  | S754_finite true m e => - scaled (SpecFloat.emin Double.prec Double.emax) (Z.pos m) e
  | _ => 0
  end.

(** Whether [N * 2^-1074], [N] not negative, is a double. *)
Definition fits (N : Z) : bool := fits_in Double.prec Double.emax N.

(** A quantity that is a finite double, of either sign. *)
Definition finite_double (x : double) : bool := Double.valid x && Double.is_finite x.

(** Whether the true sums [N + q1], [N + q1 + q2], ... of the quantities, taken
    from first to last, are all doubles, so that adding them one after the
    other never rounds. *)
Fixpoint sums_fit (N : Z) (qs : list double) : bool :=
  match qs with
  | [] => true
  | q :: qs' => fits (Z.abs (N + units q)) && sums_fit (N + units q) qs'
  end.

(** The accumulation loop of [get_imbalance] over these orders never rounds. *)
Definition adds_exactly (os : list Order) : bool := sums_fit 0 (map quantity os).

(** The true sum of the quantities, in units of [2^-1074]. *)
Definition units_total (os : list Order) : Z :=
  fold_right (fun o n => units (quantity o) + n) 0 os.

(** ** Streams of market data *)

(** One call [on_market_data(symbol_type, price, quantity, is_bid)]. *)
Record Event : Type := mkEvent { ev_symbol_type : Z; ev_call : Call }.

Definition on_event (s : PairStrategy) (ev : Event) : PairStrategy :=
  on_market_data (ev_symbol_type ev) (c_price (ev_call ev)) (c_quantity (ev_call ev))
    (c_is_bid (ev_call ev)) s.

(** A sequence of [on_market_data] calls, executed first to last. *)
Definition on_events (evs : list Event) (s : PairStrategy) : PairStrategy :=
  fold_left on_event evs s.

(** The calls that a stream addresses to one role, in their order. *)
Definition calls_of_role (role : Z) (evs : list Event) : list Call :=
  map ev_call (filter (fun ev => ev_symbol_type ev =? role) evs).

(** The same order sent to the other side of the book. *)
Definition flip_side (c : Call) : Call :=
  mkCall (c_price c) (c_quantity c) (negb (c_is_bid c)).

Definition is_zero (x : double) : bool :=
  match x with S754_zero _ => true | _ => false end.

Definition is_nonzero_finite (x : double) : bool :=
  match x with S754_finite _ _ _ => true | _ => false end.

(** [x] is the opposite of [y], the sign of a zero left aside. *)
Definition opposite (x y : double) : Prop :=
  x = (- y)%dbl \/ (is_zero x = true /\ is_zero y = true).

Definition is_positive (x : double) : bool :=
  match x with S754_finite false _ _ | S754_infinity false => true | _ => false end.

(** The value that [get_imbalance] returns for given totals, and the signal
    that [check_signals] returns for a given threshold and imbalance. *)
Definition imbalance_of (total_bid_vol total_ask_vol : double) : double :=
  let total_vol := (total_bid_vol + total_ask_vol)%dbl in
  if (total_vol == Double.zero)%dbl then Double.zero
  else ((total_bid_vol - total_ask_vol) / total_vol)%dbl.

Definition signal_of (entry_threshold leader_obi : double) : Z :=
  if (entry_threshold <? leader_obi)%dbl then 1
  else if (leader_obi <? - entry_threshold)%dbl then -1
  else 0.

(** * Arithmetic of binary64 *)

(** ** Comparison of doubles *)

Lemma SFcompare_swap (x y : double) :
  SFcompare y x = option_map CompOpp (SFcompare x y).
Proof.
  destruct x as [[]|[]| |[] mx ex], y as [[]|[]| |[] my ey]; simpl; try reflexivity;
    rewrite (Z.compare_antisym ex ey);
    destruct (ex ?= ey); simpl; try reflexivity;
    change (Pos.compare_cont Eq my mx) with (Pos.compare my mx);
    change (Pos.compare_cont Eq mx my) with (Pos.compare mx my);
    rewrite (Pos.compare_antisym mx my);
    destruct (Pos.compare mx my); reflexivity.
Qed.

Lemma eqb_not_ltb (x y : double) :
  (x == y)%dbl = true -> (x <? y)%dbl = false /\ (y <? x)%dbl = false.
Proof.
  unfold Double.eqb, Double.ltb, SFeqb, SFltb.
  rewrite (SFcompare_swap x y).
  destruct (SFcompare x y) as [[]|]; simpl; intros H; try discriminate; auto.
Qed.

(** With a threshold that is not negative the two tests of [check_signals]
    exclude each other. *)
Lemma tests_exclusive (T x : double) :
  (T <? Double.zero)%dbl = false ->
  (T <? x)%dbl = true -> (x <? - T)%dbl = true -> False.
Proof.
  unfold Double.ltb, Double.opp, Double.zero, SFltb.
  destruct T as [[]|[]| |[] mT eT], x as [[]|[]| |[] mx ex]; simpl;
    intros; discriminate.
Qed.

Lemma eqb_threshold_not_below (T x : double) :
  (T <? Double.zero)%dbl = false ->
  (x == T)%dbl = true -> (x <? - T)%dbl = false.
Proof.
  unfold Double.ltb, Double.eqb, Double.opp, Double.zero, SFltb, SFeqb.
  destruct T as [[]|[]| |[] mT eT], x as [[]|[]| |[] mx ex]; simpl;
    intros; try discriminate; reflexivity.
Qed.

Lemma eqb_opp_threshold_not_above (T x : double) :
  (T <? Double.zero)%dbl = false ->
  (x == - T)%dbl = true -> (T <? x)%dbl = false.
Proof.
  unfold Double.ltb, Double.eqb, Double.opp, Double.zero, SFltb, SFeqb.
  destruct T as [[]|[]| |[] mT eT], x as [[]|[]| |[] mx ex]; simpl;
    intros; try discriminate; reflexivity.
Qed.

(** A negative threshold lies below zero and its opposite above. *)
Lemma negative_threshold_zero (T x : double) :
  (T <? Double.zero)%dbl = true -> (x == Double.zero)%dbl = true ->
  (T <? x)%dbl = true /\ (x <? - T)%dbl = true.
Proof.
  unfold Double.ltb, Double.eqb, Double.opp, Double.zero, SFltb, SFeqb.
  destruct T as [[]|[]| |[] mT eT], x as [[]|[]| |[] mx ex]; simpl;
    intros; try discriminate; split; reflexivity.
Qed.

(** ** Powers of two and bit lengths *)

Lemma pow2_pos (k : Z) : 0 <= k -> 0 < 2 ^ k.
Proof. intros. apply Z.pow_pos_nonneg; lia. Qed.

Lemma pow2_add (a b : Z) : 0 <= a -> 0 <= b -> 2 ^ (a + b) = 2 ^ a * 2 ^ b.
Proof. intros. apply Z.pow_add_r; lia. Qed.

Lemma pow2_le (a b : Z) : 0 <= a <= b -> 2 ^ a <= 2 ^ b.
Proof. intros. apply Z.pow_le_mono_r; lia. Qed.

Lemma pow2_lt (a b : Z) : 0 <= a < b -> 2 ^ a < 2 ^ b.
Proof. intros. apply Z.pow_lt_mono_r; lia. Qed.

Lemma pow2_succ (a : Z) : 0 <= a -> 2 ^ (a + 1) = 2 * 2 ^ a.
Proof. intros. rewrite pow2_add by lia. lia. Qed.

Lemma digits2_pos_bounds (p : positive) :
  2 ^ (Z.pos (digits2_pos p) - 1) <= Z.pos p < 2 ^ Z.pos (digits2_pos p).
Proof.
  induction p as [p IH|p IH|]; cbn [digits2_pos].
  - rewrite Pos2Z.inj_succ. unfold Z.succ.
    replace (Z.pos (digits2_pos p) + 1 - 1) with (Z.pos (digits2_pos p) - 1 + 1) by lia.
    rewrite !pow2_succ by lia. lia.
  - rewrite Pos2Z.inj_succ. unfold Z.succ.
    replace (Z.pos (digits2_pos p) + 1 - 1) with (Z.pos (digits2_pos p) - 1 + 1) by lia.
    rewrite !pow2_succ by lia. lia.
  - simpl. lia.
Qed.

Lemma Zdigits2_nonneg (m : Z) : 0 <= Zdigits2 m.
Proof. destruct m; simpl; lia. Qed.

Lemma Zdigits2_pos (m : Z) : 0 < m -> 0 < Zdigits2 m.
Proof. destruct m; simpl; lia. Qed.

Lemma Zdigits2_bounds (m : Z) :
  0 < m -> 2 ^ (Zdigits2 m - 1) <= m < 2 ^ Zdigits2 m.
Proof.
  destruct m as [|p|p]; try lia. intros _. apply digits2_pos_bounds.
Qed.

Lemma Zdigits2_lt_pow (m d : Z) : 0 <= m -> 0 <= d -> m < 2 ^ d -> Zdigits2 m <= d.
Proof.
  intros Hm Hd H. destruct (Z.eq_dec m 0) as [->|Hz]; [simpl; lia|].
  destruct (Z_le_gt_dec (Zdigits2 m) d) as [|Hgt]; [assumption|exfalso].
  pose proof (Zdigits2_bounds m ltac:(lia)) as [Hlo _].
  assert (2 ^ d <= 2 ^ (Zdigits2 m - 1)) by (apply pow2_le; lia). lia.
Qed.

Lemma Zdigits2_ge_pow (m d : Z) : 0 <= d -> 2 ^ d <= m -> d < Zdigits2 m.
Proof.
  intros Hd H. pose proof (pow2_pos d Hd).
  pose proof (Zdigits2_bounds m ltac:(lia)) as [_ Hhi].
  destruct (Z_lt_le_dec d (Zdigits2 m)) as [|Hle]; [assumption|exfalso].
  pose proof (Zdigits2_nonneg m).
  assert (2 ^ Zdigits2 m <= 2 ^ d) by (apply pow2_le; lia). lia.
Qed.

Lemma Zdigits2_unique (m d : Z) :
  0 < d -> 2 ^ (d - 1) <= m < 2 ^ d -> Zdigits2 m = d.
Proof.
  intros Hd [Hlo Hhi].
  pose proof (pow2_pos (d - 1) ltac:(lia)).
  pose proof (Zdigits2_lt_pow m d ltac:(lia) ltac:(lia) Hhi).
  pose proof (Zdigits2_ge_pow m (d - 1) ltac:(lia) Hlo). lia.
Qed.

(** ** Shifting right with round and sticky bits *)

Lemma shr_1_spec (mrs : shr_record) :
  0 <= shr_m mrs ->
  shr_m (shr_1 mrs) = shr_m mrs / 2 /\
  inexact (shr_1 mrs) = negb (shr_m mrs mod 2 =? 0) || inexact mrs.
Proof.
  destruct mrs as [m r s]. cbn [shr_m]. intros Hm. unfold inexact.
  destruct m as [|[p|p|]|p]; try lia; cbn [shr_1 shr_m shr_r shr_s].
  - split; destruct r, s; reflexivity.
  - rewrite Pos2Z.inj_xI. split.
    + apply (Z.div_unique _ _ _ 1); lia.
    + replace ((2 * Z.pos p + 1) mod 2) with 1; [reflexivity|].
      apply (Z.mod_unique _ _ (Z.pos p)); lia.
  - rewrite Pos2Z.inj_xO. split.
    + apply (Z.div_unique _ _ _ 0); lia.
    + replace ((2 * Z.pos p) mod 2) with 0; [reflexivity|].
      apply (Z.mod_unique _ _ (Z.pos p)); lia.
  - split; destruct r, s; reflexivity.
Qed.

Lemma Shifted_nonneg (n : Z) (mrs mrs' : shr_record) :
  0 <= n -> 0 <= shr_m mrs -> Shifted n mrs mrs' -> 0 <= shr_m mrs'.
Proof.
  intros Hn Hm [E _]. rewrite E. apply Z.div_pos; [assumption|now apply pow2_pos].
Qed.

Lemma Shifted_zero (mrs : shr_record) : Shifted 0 mrs mrs.
Proof.
  unfold Shifted. rewrite Z.pow_0_r, Z.div_1_r, Z.mod_1_r. split; reflexivity.
Qed.

Lemma Shifted_trans (a b : Z) (x y z : shr_record) :
  0 <= a -> 0 <= b -> Shifted a x y -> Shifted b y z -> Shifted (a + b) x z.
Proof.
  intros Ha Hb [Em Ei] [Em' Ei'].
  pose proof (pow2_pos a Ha). pose proof (pow2_pos b Hb).
  unfold Shifted. rewrite pow2_add by assumption. split.
  - rewrite Em', Em. apply Z.div_div; lia.
  - rewrite Ei', Ei, Em. rewrite Z.rem_mul_r by lia.
    pose proof (Z.mod_pos_bound (shr_m x) (2 ^ a) ltac:(lia)).
    pose proof (Z.mod_pos_bound (shr_m x / 2 ^ a) (2 ^ b) ltac:(lia)).
    set (r1 := (shr_m x / 2 ^ a) mod 2 ^ b) in *.
    set (r2 := shr_m x mod 2 ^ a) in *.
    assert (Hprod : 0 <= 2 ^ a * r1) by (apply Z.mul_nonneg_nonneg; lia).
    assert (Hz : 2 ^ a * r1 = 0 -> r1 = 0).
    { intros E. apply Z.mul_eq_0 in E. lia. }
    destruct (Z.eqb_spec r1 0) as [E1|E1];
      destruct (Z.eqb_spec r2 0) as [E2|E2];
      destruct (Z.eqb_spec (r2 + 2 ^ a * r1) 0) as [E3|E3];
      try reflexivity; simpl; try (exfalso; lia);
      try (rewrite E1 in E3; lia);
      destruct (inexact x); reflexivity.
Qed.

Lemma Shifted_shr_1 (mrs : shr_record) : 0 <= shr_m mrs -> Shifted 1 mrs (shr_1 mrs).
Proof. intros H. exact (shr_1_spec mrs H). Qed.

Lemma Shifted_iter_pos (p : positive) (mrs : shr_record) :
  0 <= shr_m mrs -> Shifted (Z.pos p) mrs (iter_pos shr_1 p mrs).
Proof.
  revert mrs. induction p as [p IH|p IH|]; intros mrs Hm; cbn [iter_pos].
  - pose proof (Shifted_shr_1 mrs Hm) as H1.
    pose proof (Shifted_nonneg 1 _ _ ltac:(lia) Hm H1) as Hm1.
    pose proof (IH _ Hm1) as H2.
    pose proof (Shifted_nonneg (Z.pos p) _ _ ltac:(lia) Hm1 H2) as Hm2.
    pose proof (IH _ Hm2) as H3.
    replace (Z.pos p~1) with (1 + Z.pos p + Z.pos p) by lia.
    eapply Shifted_trans; [lia|lia| |exact H3].
    eapply Shifted_trans; [lia|lia|exact H1|exact H2].
  - pose proof (IH _ Hm) as H2.
    pose proof (Shifted_nonneg (Z.pos p) _ _ ltac:(lia) Hm H2) as Hm2.
    pose proof (IH _ Hm2) as H3.
    replace (Z.pos p~0) with (Z.pos p + Z.pos p) by lia.
    eapply Shifted_trans; [lia|lia|exact H2|exact H3].
  - apply Shifted_shr_1, Hm.
Qed.

(** [shr] by a non-negative amount. *)
Lemma shr_Shifted (mrs : shr_record) (e n : Z) :
  0 <= shr_m mrs -> 0 <= n ->
  Shifted n mrs (fst (shr mrs e n)) /\ snd (shr mrs e n) = e + n.
Proof.
  intros Hm Hn. destruct n as [|p|p]; try lia; cbn [shr fst snd].
  - split; [apply Shifted_zero|lia].
  - split; [now apply Shifted_iter_pos|reflexivity].
Qed.

Lemma inexact_of_loc (m : Z) (l : location) :
  shr_m (shr_record_of_loc m l) = m /\
  inexact (shr_record_of_loc m l) = loc_inexact l.
Proof. destruct l as [|[]]; split; reflexivity. Qed.

Lemma round_nearest_even_bounds (mrs : shr_record) :
  let m' := round_nearest_even (shr_m mrs) (loc_of_shr_record mrs) in
  shr_m mrs <= m' <= shr_m mrs + 1 /\ (inexact mrs = false -> m' = shr_m mrs).
Proof.
  destruct mrs as [m [] []]; cbn; try destruct (Z.even m); split; try lia; discriminate.
Qed.

(** ** Exponents and canonical mantissas of a format *)

Section Format.

Variables prec emax : Z.
Hypothesis prec_pos : 0 < prec.

Local Abbreviation emin := (SpecFloat.emin prec emax).
Local Abbreviation fexp := (SpecFloat.fexp prec emax).

Lemma fexp_spec (z : Z) :
  (z - prec <= emin /\ fexp z = emin) \/ (emin <= z - prec /\ fexp z = z - prec).
Proof. unfold SpecFloat.fexp. lia. Qed.

Lemma fexp_mono (a b : Z) : a <= b -> fexp a <= fexp b.
Proof. unfold SpecFloat.fexp. lia. Qed.

Lemma canonical_mantissa_iff (m : positive) (e : Z) :
  canonical_mantissa prec emax m e = true <-> fexp (Zdigits2 (Z.pos m) + e) = e.
Proof. unfold canonical_mantissa. cbn [Zdigits2]. apply Z.eqb_eq. Qed.

Lemma bounded_iff (m : positive) (e : Z) :
  bounded prec emax m e = true <->
  fexp (Zdigits2 (Z.pos m) + e) = e /\ e <= emax - prec.
Proof.
  unfold bounded. rewrite andb_true_iff, canonical_mantissa_iff, Z.leb_le. tauto.
Qed.

(** A mantissa of a canonical number has at most [prec] bits, and exactly
    [prec] bits above the smallest exponent. *)
Lemma canonical_digits (m : positive) (e : Z) :
  fexp (Zdigits2 (Z.pos m) + e) = e ->
  emin <= e /\ Zdigits2 (Z.pos m) <= prec /\ (emin < e -> Zdigits2 (Z.pos m) = prec).
Proof. intros H. destruct (fexp_spec (Zdigits2 (Z.pos m) + e)); lia. Qed.

(** The second shift of [binary_round_aux]: it moves by one place exactly when
    rounding carried into bit [prec]. *)
Lemma shr_fexp_exact (m2 e1 : Z) :
  0 < m2 -> emin <= e1 ->
  (m2 < 2 ^ prec /\ (e1 = emin \/ 2 ^ (prec - 1) <= m2)) \/ m2 = 2 ^ prec ->
  exists (m3 : positive) (e3 : Z) (mrs : shr_record),
    shr_fexp prec emax m2 e1 loc_Exact = (mrs, e3) /\
    shr_m mrs = Z.pos m3 /\
    fexp (Zdigits2 (Z.pos m3) + e3) = e3 /\
    e1 <= e3 /\ Z.pos m3 * 2 ^ (e3 - e1) = m2.
Proof.
  intros Hm He Hcase. unfold shr_fexp.
  assert (Hn : (fexp (Zdigits2 m2 + e1) - e1 = 0 /\ fexp (Zdigits2 m2 + e1) = e1) \/
               (fexp (Zdigits2 m2 + e1) - e1 = 1 /\ m2 = 2 ^ prec)).
  { destruct Hcase as [[Hlt [E|Hge]]|E]; try subst e1; try subst m2.
    - left. pose proof (Zdigits2_lt_pow m2 prec ltac:(lia) ltac:(lia) Hlt).
      destruct (fexp_spec (Zdigits2 m2 + emin)); lia.
    - left. rewrite (Zdigits2_unique m2 prec prec_pos (conj Hge Hlt)).
      destruct (fexp_spec (prec + e1)); lia.
    - right. rewrite (Zdigits2_unique (2 ^ prec) (prec + 1)).
      + destruct (fexp_spec (prec + 1 + e1)); lia.
      + lia.
      + replace (prec + 1 - 1) with prec by lia. rewrite pow2_succ by lia.
        pose proof (pow2_pos prec ltac:(lia)). lia. }
  destruct Hn as [[En Hf]|[En E2]]; rewrite En; try subst m2.
  - destruct m2 as [|p|p]; try lia.
    exists p, e1, (shr_record_of_loc (Z.pos p) loc_Exact). cbn [shr shr_record_of_loc shr_m].
    repeat split; trivial; try lia. rewrite Z.sub_diag. simpl. lia.
  - pose proof (pow2_pos (prec - 1) ltac:(lia)) as Hpos.
    assert (Ehalf : 2 ^ prec = 2 * 2 ^ (prec - 1)).
    { replace prec with (prec - 1 + 1) at 1 by lia. apply pow2_succ. lia. }
    destruct (2 ^ (prec - 1)) as [|p|p] eqn:Ep; try lia.
    exists p, (e1 + 1), (shr_1 (shr_record_of_loc (2 ^ prec) loc_Exact)).
    cbn [shr iter_pos shr_record_of_loc].
    destruct (shr_1_spec (Build_shr_record (2 ^ prec) false false)) as [Em _].
    { cbn [shr_m]. lia. }
    cbn [shr_m] in Em.
    assert (Eq : 2 ^ prec / 2 = Z.pos p).
    { rewrite Ehalf. symmetry. apply (Z.div_unique _ _ _ 0); lia. }
    rewrite Eq in Em.
    repeat split; trivial; try lia.
    + rewrite (Zdigits2_unique (Z.pos p) prec prec_pos).
      * destruct (fexp_spec (prec + (e1 + 1))); lia.
      * rewrite <- Ep. split; [lia|]. apply pow2_lt. lia.
    + replace (e1 + 1 - e1) with 1 by lia. rewrite Ehalf. simpl. lia.
Qed.

(** The shape of the result of [binary_round_aux] on an input with enough
    bits: the mantissa is cut to [m / 2^k], moved up by at most one, and
    renormalised. *)
Lemma binary_round_aux_cases (s : bool) (m e : Z) (l : location) :
  0 <= m -> e <= fexp (Zdigits2 m + e) ->
  let e1 := fexp (Zdigits2 m + e) in
  let k := e1 - e in
  exists m2 : Z,
    m / 2 ^ k <= m2 <= m / 2 ^ k + 1 /\
    (loc_inexact l = false -> m mod 2 ^ k = 0 -> m2 = m / 2 ^ k) /\
    ((m2 = 0 /\ binary_round_aux prec emax s m e l = S754_zero s) \/
     (exists (m3 : positive) (e3 : Z),
        binary_round_aux prec emax s m e l
          = (if e3 <=? emax - prec then S754_finite s m3 e3 else S754_infinity s) /\
        fexp (Zdigits2 (Z.pos m3) + e3) = e3 /\
        e1 <= e3 /\ Z.pos m3 * 2 ^ (e3 - e1) = m2)).
Proof.
  intros Hm He e1 k.
  assert (Hk : 0 <= k) by (unfold k, e1; lia).
  pose proof (pow2_pos k Hk) as Hpk.
  unfold binary_round_aux.
  destruct (shr_fexp prec emax m e l) as [mrs1 e1'] eqn:E1.
  unfold shr_fexp in E1. fold e1 in E1. fold k in E1.
  destruct (inexact_of_loc m l) as [Em0 Ei0].
  destruct (shr_Shifted (shr_record_of_loc m l) e k) as [[Em1 Ei1] Ee1];
    [lia|lia|].
  rewrite E1 in Em1, Ei1, Ee1. cbn [fst snd] in Em1, Ei1, Ee1.
  rewrite Em0 in Em1, Ei1. rewrite Ei0 in Ei1.
  assert (Ee : e1' = e1) by (unfold k in Ee1; lia).
  rewrite Ee in *. clear Ee Ee1 e1'.
  pose proof (round_nearest_even_bounds mrs1) as [Hb Hex]. cbv zeta in Hb, Hex.
  set (m2 := round_nearest_even (shr_m mrs1) (loc_of_shr_record mrs1)) in *.
  rewrite Em1 in Hb, Hex.
  assert (Hm1 : 0 <= m / 2 ^ k) by (apply Z.div_pos; lia).
  assert (He1 : emin <= e1) by (unfold e1; destruct (fexp_spec (Zdigits2 m + e)); lia).
  exists m2. split; [exact Hb|]. split.
  { intros Hl Hmod. apply Hex. rewrite Ei1, Hl, Hmod. reflexivity. }
  destruct (Z.eq_dec m2 0) as [Ez|Hnz].
  - left. split; [exact Ez|]. rewrite Ez. unfold shr_fexp. cbn [Zdigits2 shr_record_of_loc].
    assert (Hn : fexp (0 + e1) - e1 <= 0) by (destruct (fexp_spec (0 + e1)); lia).
    destruct (fexp (0 + e1) - e1) as [|p|p]; try lia; reflexivity.
  - right.
    assert (Hupper : m / 2 ^ k < 2 ^ prec).
    { destruct (Z.eq_dec m 0) as [->|Hm0].
      - rewrite Z.div_0_l by lia. apply pow2_pos. lia.
      - pose proof (Zdigits2_bounds m ltac:(lia)) as [_ Hhi].
        pose proof (Zdigits2_pos m ltac:(lia)).
        apply Z.div_lt_upper_bound; [lia|].
        rewrite <- pow2_add by lia.
        assert (2 ^ Zdigits2 m <= 2 ^ (k + prec)); [|lia].
        apply pow2_le. unfold k, e1. destruct (fexp_spec (Zdigits2 m + e)); lia. }
    assert (Hlower : emin < e1 -> 2 ^ (prec - 1) <= m / 2 ^ k).
    { intros Hlt.
      assert (Ek : k = Zdigits2 m - prec)
        by (unfold k, e1 in *; destruct (fexp_spec (Zdigits2 m + e)); lia).
      assert (Hm0 : 0 < m).
      { destruct (Z.eq_dec m 0) as [->|]; [simpl in Ek; lia|lia]. }
      pose proof (Zdigits2_bounds m Hm0) as [Hlo _].
      apply Z.div_le_lower_bound; [lia|].
      rewrite <- pow2_add by lia.
      replace (k + (prec - 1)) with (Zdigits2 m - 1) by lia. exact Hlo. }
    destruct (shr_fexp_exact m2 e1) as (m3 & e3 & mrs3 & E3 & Em3 & Hc3 & Hle3 & Hv3).
    { lia. }
    { exact He1. }
    { destruct (Z.eq_dec m2 (2 ^ prec)) as [|Hne]; [right; assumption|left].
      split; [lia|]. destruct (Z.eq_dec e1 emin) as [|Hne']; [left; assumption|right].
      pose proof (Hlower ltac:(lia)). lia. }
    rewrite E3, Em3. exists m3, e3. repeat split; trivial.
Qed.

(** ** Values in units of [2^c] *)

Variable c : Z.
Hypothesis c_small : c <= emin.

Lemma scaled_split (m e' e : Z) :
  c <= e' <= e -> scaled c m e = m * 2 ^ (e - e') * 2 ^ (e' - c).
Proof.
  intros H. unfold scaled. replace (e - c) with (e - e' + (e' - c)) by lia.
  rewrite pow2_add by lia. lia.
Qed.

Lemma scaled_lt_pow (a ea : Z) :
  0 < a -> c <= ea -> scaled c a ea < 2 ^ (Zdigits2 a + ea - c).
Proof.
  intros Ha He. unfold scaled.
  pose proof (Zdigits2_bounds a Ha) as [_ Hhi].
  pose proof (Zdigits2_pos a Ha).
  replace (Zdigits2 a + ea - c) with (Zdigits2 a + (ea - c)) by lia.
  rewrite pow2_add by lia.
  apply Z.mul_lt_mono_pos_r; [apply pow2_pos; lia|exact Hhi].
Qed.

Lemma scaled_ge_pow (a ea : Z) :
  0 < a -> c <= ea -> 2 ^ (Zdigits2 a - 1 + ea - c) <= scaled c a ea.
Proof.
  intros Ha He. unfold scaled.
  pose proof (Zdigits2_bounds a Ha) as [Hlo _].
  pose proof (Zdigits2_pos a Ha).
  replace (Zdigits2 a - 1 + ea - c) with (Zdigits2 a - 1 + (ea - c)) by lia.
  rewrite pow2_add by lia.
  apply Z.mul_le_mono_nonneg_r; [apply Z.lt_le_incl, pow2_pos; lia|exact Hlo].
Qed.

Lemma scaled_pos (a ea : Z) : 0 < a -> c <= ea -> 0 < scaled c a ea.
Proof.
  intros Ha He. unfold scaled. apply Z.mul_pos_pos; [exact Ha|apply pow2_pos; lia].
Qed.

(** A number with fewer significant binary places is smaller. *)
Lemma scaled_lt_of_magnitude (a ea b eb : Z) :
  0 < a -> 0 < b -> c <= ea -> c <= eb ->
  Zdigits2 a + ea < Zdigits2 b + eb -> scaled c a ea < scaled c b eb.
Proof.
  intros Ha Hb Hea Heb Hlt.
  pose proof (scaled_lt_pow a ea Ha Hea).
  pose proof (scaled_ge_pow b eb Hb Heb).
  pose proof (Zdigits2_pos a Ha).
  assert (2 ^ (Zdigits2 a + ea - c) <= 2 ^ (Zdigits2 b - 1 + eb - c))
    by (apply pow2_le; lia).
  lia.
Qed.

(** Among canonical numbers the exponents order the values. *)
Lemma canonical_lt (m1 : positive) (e1 : Z) (m2 : positive) (e2 : Z) :
  fexp (Zdigits2 (Z.pos m1) + e1) = e1 ->
  fexp (Zdigits2 (Z.pos m2) + e2) = e2 ->
  e1 < e2 -> scaled c (Z.pos m1) e1 < scaled c (Z.pos m2) e2.
Proof.
  intros H1 H2 Hlt.
  destruct (canonical_digits m1 e1 H1) as (He1 & Hd1 & _).
  destruct (canonical_digits m2 e2 H2) as (He2 & _ & Hd2).
  apply scaled_lt_of_magnitude; lia.
Qed.

Lemma canonical_exponent_le (m1 : positive) (e1 : Z) (m2 : positive) (e2 : Z) :
  fexp (Zdigits2 (Z.pos m1) + e1) = e1 ->
  fexp (Zdigits2 (Z.pos m2) + e2) = e2 ->
  scaled c (Z.pos m1) e1 <= scaled c (Z.pos m2) e2 -> e1 <= e2.
Proof.
  intros H1 H2 Hle. destruct (Z_le_gt_dec e1 e2) as [|Hgt]; [assumption|exfalso].
  pose proof (canonical_lt m2 e2 m1 e1 H2 H1 ltac:(lia)). lia.
Qed.

(** What the first shift of [binary_round_aux] keeps, in units of [2^c]. *)
Lemma scaled_cut (m e : Z) :
  0 <= m -> c <= e -> e <= fexp (Zdigits2 m + e) ->
  let e1 := fexp (Zdigits2 m + e) in
  let k := e1 - e in
  scaled c (m / 2 ^ k) e1 <= scaled c m e /\
  (scaled c (m / 2 ^ k) e1 = scaled c m e -> m mod 2 ^ k = 0).
Proof.
  intros Hm Hc He e1 k.
  assert (Hk : 0 <= k) by (unfold k, e1; lia).
  pose proof (pow2_pos k Hk) as Hpk.
  pose proof (pow2_pos (e - c) ltac:(lia)) as Hu.
  rewrite (scaled_split (m / 2 ^ k) e e1) by lia. fold k. unfold scaled.
  pose proof (Z.div_mod m (2 ^ k) ltac:(lia)) as Hdm.
  pose proof (Z.mod_pos_bound m (2 ^ k) Hpk) as Hmod.
  split.
  - apply Z.mul_le_mono_nonneg_r; lia.
  - intros E. apply Z.mul_cancel_r in E; lia.
Qed.

(** Rounding stays below every number of the format that bounds the value
    from above. *)
Lemma binary_round_aux_upper (s : bool) (m e : Z) (l : location)
    (mf : positive) (ef : Z) :
  0 <= m -> c <= e -> e <= fexp (Zdigits2 m + e) ->
  bounded prec emax mf ef = true ->
  scaled c m e <= scaled c (Z.pos mf) ef ->
  (loc_inexact l = true -> scaled c m e < scaled c (Z.pos mf) ef) ->
  match binary_round_aux prec emax s m e l with
  | S754_zero s' => s' = s
  | S754_finite s' m3 e3 =>
      s' = s /\ bounded prec emax m3 e3 = true /\
      scaled c (Z.pos m3) e3 <= scaled c (Z.pos mf) ef
  | _ => False
  end.
Proof.
  intros Hm Hc He Hf Hle Hlt.
  apply bounded_iff in Hf. destruct Hf as [Hcf Hef].
  destruct (canonical_digits mf ef Hcf) as (Hef_min & Hdf & _).
  destruct (binary_round_aux_cases s m e l Hm He) as (m2 & Hb & Hex & Hres).
  destruct (scaled_cut m e Hm Hc He) as [Hcut Hcut_eq].
  cbv zeta in Hb, Hex, Hres, Hcut, Hcut_eq.
  set (e1 := fexp (Zdigits2 m + e)) in *. set (k := e1 - e) in *.
  assert (Hk : 0 <= k) by (unfold k; lia).
  assert (He1 : emin <= e1) by (unfold e1; destruct (fexp_spec (Zdigits2 m + e)); lia).
  pose proof (pow2_pos (e1 - c) ltac:(lia)) as Hu1.
  assert (Hord : e1 <= ef).
  { destruct (Z_le_gt_dec e1 ef) as [|Hgt]; [assumption|exfalso].
    assert (Hmag : Zdigits2 (Z.pos mf) + ef < Zdigits2 m + e).
    { destruct (Z_lt_le_dec (Zdigits2 (Z.pos mf) + ef) (Zdigits2 m + e)) as [|Hge];
        [assumption|exfalso].
      pose proof (fexp_mono _ _ Hge). unfold e1 in Hgt. lia. }
    assert (Hm0 : 0 < m).
    { destruct (Z.eq_dec m 0) as [E|]; [|lia]. exfalso. subst m.
      unfold e1 in *. cbn [Zdigits2] in *. destruct (fexp_spec (0 + e)); lia. }
    pose proof (scaled_lt_of_magnitude (Z.pos mf) ef m e ltac:(lia) Hm0 ltac:(lia) Hc Hmag).
    lia. }
  assert (Hmain : scaled c m2 e1 <= scaled c (Z.pos mf) ef).
  { rewrite (scaled_split (Z.pos mf) e1 ef) by lia.
    unfold scaled at 1. apply Z.mul_le_mono_nonneg_r; [lia|].
    set (F := Z.pos mf * 2 ^ (ef - e1)).
    assert (HF : scaled c (Z.pos mf) ef = scaled c F e1).
    { rewrite (scaled_split (Z.pos mf) e1 ef) by lia. reflexivity. }
    assert (Hcmp : m / 2 ^ k <= F).
    { rewrite HF in Hle. unfold scaled in Hcut, Hle.
      apply (Z.mul_le_mono_pos_r _ _ (2 ^ (e1 - c)) Hu1). lia. }
    destruct (Z.eq_dec (m / 2 ^ k) F) as [E|Hne]; [|lia].
    rewrite Hex; [lia| |].
    - destruct (loc_inexact l); [|reflexivity]. exfalso.
      specialize (Hlt eq_refl). rewrite HF, <- E in Hlt. lia.
    - apply Hcut_eq. rewrite E, <- HF.
      rewrite HF, <- E in Hle. rewrite HF, <- E. lia. }
  destruct Hres as [[Ez Hr]|(m3 & e3 & Hr & Hc3 & He3 & Hv3)]; rewrite Hr.
  - reflexivity.
  - assert (Hval : scaled c (Z.pos m3) e3 = scaled c m2 e1).
    { rewrite (scaled_split (Z.pos m3) e1 e3) by lia. rewrite Hv3. reflexivity. }
    pose proof (canonical_exponent_le m3 e3 mf ef Hc3 Hcf ltac:(lia)) as Hexp.
    destruct (Z.leb_spec e3 (emax - prec)); [|lia].
    repeat split; [|lia]. apply bounded_iff. split; [assumption|lia].
Qed.

(** Rounding stays above every number of the format that bounds the value
    from below. *)
Lemma binary_round_aux_lower (s : bool) (m e : Z) (l : location)
    (mf : positive) (ef : Z) :
  0 <= m -> c <= e -> e <= fexp (Zdigits2 m + e) ->
  bounded prec emax mf ef = true ->
  scaled c (Z.pos mf) ef <= scaled c m e ->
  match binary_round_aux prec emax s m e l with
  | S754_infinity s' => s' = s
  | S754_finite s' m3 e3 =>
      s' = s /\ bounded prec emax m3 e3 = true /\
      scaled c (Z.pos mf) ef <= scaled c (Z.pos m3) e3
  | _ => False
  end.
Proof.
  intros Hm Hc He Hf Hle.
  apply bounded_iff in Hf. destruct Hf as [Hcf Hef].
  destruct (canonical_digits mf ef Hcf) as (Hef_min & Hdf & _).
  destruct (binary_round_aux_cases s m e l Hm He) as (m2 & Hb & Hex & Hres).
  cbv zeta in Hb, Hex, Hres.
  set (e1 := fexp (Zdigits2 m + e)) in *. set (k := e1 - e) in *.
  assert (Hk : 0 <= k) by (unfold k; lia).
  pose proof (pow2_pos k Hk) as Hpk.
  assert (He1 : emin <= e1) by (unfold e1; destruct (fexp_spec (Zdigits2 m + e)); lia).
  pose proof (pow2_pos (e1 - c) ltac:(lia)) as Hu1.
  pose proof (scaled_pos (Z.pos mf) ef ltac:(lia) ltac:(lia)) as Hfpos.
  assert (Hm0 : 0 < m).
  { destruct (Z.eq_dec m 0) as [E|]; [|lia]. subst m. unfold scaled in Hle at 2. lia. }
  assert (Hmain : scaled c (Z.pos mf) ef <= scaled c (m / 2 ^ k) e1).
  { destruct (Z_le_gt_dec e1 ef) as [Hord|Hgt].
    - rewrite (scaled_split (Z.pos mf) e1 ef) by lia.
      unfold scaled at 1. apply Z.mul_le_mono_nonneg_r; [lia|].
      apply Z.div_le_lower_bound; [lia|].
      rewrite (scaled_split (Z.pos mf) e ef) in Hle by lia.
      unfold scaled in Hle.
      apply Z.mul_le_mono_pos_r in Hle; [|apply pow2_pos; lia].
      replace (ef - e) with (k + (ef - e1)) in Hle by (unfold k; lia).
      rewrite pow2_add in Hle by lia. lia.
    - assert (Ek : k = Zdigits2 m - prec)
        by (unfold k, e1 in *; destruct (fexp_spec (Zdigits2 m + e)); lia).
      assert (Hmag : Zdigits2 (Z.pos mf) + ef < Zdigits2 m + e).
      { destruct (Z_lt_le_dec (Zdigits2 (Z.pos mf) + ef) (Zdigits2 m + e)) as [|Hge];
          [assumption|exfalso].
        pose proof (fexp_mono _ _ Hge). unfold e1 in Hgt. lia. }
      pose proof (Zdigits2_bounds m Hm0) as [Hlo _].
      assert (Hcut : 2 ^ (prec - 1) <= m / 2 ^ k).
      { apply Z.div_le_lower_bound; [lia|].
        rewrite <- pow2_add by lia.
        replace (k + (prec - 1)) with (Zdigits2 m - 1) by lia. exact Hlo. }
      pose proof (scaled_lt_pow (Z.pos mf) ef ltac:(lia) ltac:(lia)) as Hfl.
      assert (Hpw : 2 ^ (Zdigits2 (Z.pos mf) + ef - c) <= 2 ^ (prec - 1 + (e1 - c))).
      { apply pow2_le. pose proof (Zdigits2_pos (Z.pos mf) ltac:(lia)).
        unfold e1 in *. destruct (fexp_spec (Zdigits2 m + e)); lia. }
      rewrite pow2_add in Hpw by lia.
      assert (2 ^ (prec - 1) * 2 ^ (e1 - c) <= scaled c (m / 2 ^ k) e1)
        by (unfold scaled; apply Z.mul_le_mono_nonneg_r; lia).
      lia. }
  assert (Hmain2 : scaled c (Z.pos mf) ef <= scaled c m2 e1).
  { assert (scaled c (m / 2 ^ k) e1 <= scaled c m2 e1)
      by (unfold scaled; apply Z.mul_le_mono_nonneg_r; lia).
    lia. }
  destruct Hres as [[Ez Hr]|(m3 & e3 & Hr & Hc3 & He3 & Hv3)]; rewrite Hr.
  - subst m2. unfold scaled in Hmain2 at 2. lia.
  - assert (Hval : scaled c (Z.pos m3) e3 = scaled c m2 e1).
    { rewrite (scaled_split (Z.pos m3) e1 e3) by lia. rewrite Hv3. reflexivity. }
    destruct (Z.leb_spec e3 (emax - prec)); [|reflexivity].
    repeat split; [|lia]. apply bounded_iff. split; [assumption|lia].
Qed.

(** ** Alignment and [binary_round] *)

Lemma iter_xO (p d : positive) : Z.pos (Pos.iter xO p d) = Z.pos p * 2 ^ Z.pos d.
Proof.
  induction d as [|d IH] using Pos.peano_ind.
  - cbn [Pos.iter]. rewrite Pos2Z.inj_xO. change (2 ^ 1) with 2. lia.
  - rewrite Pos.iter_succ, Pos2Z.inj_xO, IH, Pos2Z.inj_succ.
    unfold Z.succ. rewrite pow2_succ by lia. lia.
Qed.

Lemma shl_align_spec (mx : positive) (ex ex' : Z) :
  snd (shl_align mx ex ex') = Z.min ex ex' /\
  Z.pos (fst (shl_align mx ex ex')) = Z.pos mx * 2 ^ (ex - Z.min ex ex').
Proof.
  unfold shl_align. destruct (ex' - ex) as [|d|d] eqn:E; cbn [fst snd].
  - replace (Z.min ex ex') with ex by lia. rewrite Z.sub_diag. simpl. lia.
  - replace (Z.min ex ex') with ex by lia. rewrite Z.sub_diag. simpl. lia.
  - replace (Z.min ex ex') with ex' by lia.
    replace (ex - ex') with (Z.pos d) by lia. split; [reflexivity|apply iter_xO].
Qed.

Lemma Zdigits2_shift (m j : Z) : 0 < m -> 0 <= j -> Zdigits2 (m * 2 ^ j) = Zdigits2 m + j.
Proof.
  intros Hm Hj. pose proof (Zdigits2_bounds m Hm) as [Hlo Hhi].
  pose proof (Zdigits2_pos m Hm). pose proof (pow2_pos j Hj).
  apply Zdigits2_unique; [lia|].
  replace (Zdigits2 m + j - 1) with (Zdigits2 m - 1 + j) by lia.
  rewrite !pow2_add by lia. split.
  - apply Z.mul_le_mono_nonneg_r; lia.
  - apply Z.mul_lt_mono_pos_r; lia.
Qed.

(** What [binary_round] hands to [binary_round_aux]: the same value, with
    enough bits. *)
Lemma binary_round_input (mx : positive) (ex : Z) :
  c <= ex ->
  let mz := fst (shl_align mx ex (fexp (Zdigits2 (Z.pos mx) + ex))) in
  let ez := snd (shl_align mx ex (fexp (Zdigits2 (Z.pos mx) + ex))) in
  c <= ez /\ ez <= fexp (Zdigits2 (Z.pos mz) + ez) /\
  scaled c (Z.pos mz) ez = scaled c (Z.pos mx) ex.
Proof.
  intros Hc mz ez.
  destruct (shl_align_spec mx ex (fexp (Zdigits2 (Z.pos mx) + ex))) as [Ee Em].
  fold mz in Em. fold ez in Ee.
  set (f := fexp (Zdigits2 (Z.pos mx) + ex)) in *.
  assert (Hf : emin <= f) by (unfold f; destruct (fexp_spec (Zdigits2 (Z.pos mx) + ex)); lia).
  assert (Hd : Zdigits2 (Z.pos mz) + ez = Zdigits2 (Z.pos mx) + ex).
  { rewrite Em, Zdigits2_shift by lia. lia. }
  split; [lia|]. split.
  - rewrite Hd. fold f. lia.
  - rewrite Em. rewrite (scaled_split (Z.pos mx) ez ex) by lia.
    unfold scaled. rewrite <- Ee. reflexivity.
Qed.

Lemma binary_round_upper (s : bool) (mx : positive) (ex : Z) (mf : positive) (ef : Z) :
  c <= ex -> bounded prec emax mf ef = true ->
  scaled c (Z.pos mx) ex <= scaled c (Z.pos mf) ef ->
  match binary_round prec emax s mx ex with
  | S754_zero s' => s' = s
  | S754_finite s' m3 e3 =>
      s' = s /\ bounded prec emax m3 e3 = true /\
      scaled c (Z.pos m3) e3 <= scaled c (Z.pos mf) ef
  | _ => False
  end.
Proof.
  intros Hc Hf Hle. unfold binary_round.
  destruct (binary_round_input mx ex Hc) as (Hcz & Hez & Hv).
  cbn [Zdigits2] in Hcz, Hez, Hv.
  destruct (shl_align mx ex (fexp (Z.pos (digits2_pos mx) + ex))) as [mz ez].
  cbn [fst snd] in Hcz, Hez, Hv.
  apply binary_round_aux_upper; trivial; try lia. discriminate.
Qed.

Lemma binary_round_lower (s : bool) (mx : positive) (ex : Z) (mf : positive) (ef : Z) :
  c <= ex -> bounded prec emax mf ef = true ->
  scaled c (Z.pos mf) ef <= scaled c (Z.pos mx) ex ->
  match binary_round prec emax s mx ex with
  | S754_infinity s' => s' = s
  | S754_finite s' m3 e3 =>
      s' = s /\ bounded prec emax m3 e3 = true /\
      scaled c (Z.pos mf) ef <= scaled c (Z.pos m3) e3
  | _ => False
  end.
Proof.
  intros Hc Hf Hle. unfold binary_round.
  destruct (binary_round_input mx ex Hc) as (Hcz & Hez & Hv).
  cbn [Zdigits2] in Hcz, Hez, Hv.
  destruct (shl_align mx ex (fexp (Z.pos (digits2_pos mx) + ex))) as [mz ez].
  cbn [fst snd] in Hcz, Hez, Hv.
  apply binary_round_aux_lower; trivial; lia.
Qed.

(** ** Sum and difference of two positive numbers of the format *)

Lemma aligned_values (mx : positive) (ex : Z) (my : positive) (ey : Z) :
  c <= ex -> c <= ey ->
  let ez := Z.min ex ey in
  scaled c (Z.pos (fst (shl_align mx ex ez))) ez = scaled c (Z.pos mx) ex /\
  scaled c (Z.pos (fst (shl_align my ey ez))) ez = scaled c (Z.pos my) ey.
Proof.
  intros Hx Hy ez.
  destruct (shl_align_spec mx ex ez) as [_ Ex].
  destruct (shl_align_spec my ey ez) as [_ Ey].
  replace (Z.min ex ez) with ez in Ex by lia.
  replace (Z.min ey ez) with ez in Ey by lia.
  rewrite Ex, Ey.
  rewrite (scaled_split (Z.pos mx) ez ex), (scaled_split (Z.pos my) ez ey) by lia.
  split; reflexivity.
Qed.

Lemma scaled_add (a b e : Z) : scaled c (a + b) e = scaled c a e + scaled c b e.
Proof. unfold scaled. lia. Qed.

Lemma SFadd_positive (mx : positive) (ex : Z) (my : positive) (ey : Z) :
  bounded prec emax mx ex = true -> bounded prec emax my ey = true ->
  match SFadd prec emax (S754_finite false mx ex) (S754_finite false my ey) with
  | S754_infinity s' => s' = false
  | S754_finite s' m3 e3 =>
      s' = false /\ bounded prec emax m3 e3 = true /\
      scaled c (Z.pos mx) ex <= scaled c (Z.pos m3) e3 /\
      scaled c (Z.pos my) ey <= scaled c (Z.pos m3) e3
  | _ => False
  end.
Proof.
  intros Hx Hy.
  pose proof (proj1 (bounded_iff mx ex) Hx) as [Hcx _].
  pose proof (proj1 (bounded_iff my ey) Hy) as [Hcy _].
  destruct (canonical_digits mx ex Hcx) as (Hex & _).
  destruct (canonical_digits my ey Hcy) as (Hey & _).
  destruct (aligned_values mx ex my ey) as [Vx Vy]; try lia.
  cbn [SFadd cond_Zopp]. cbv zeta in Vx, Vy.
  set (ez := Z.min ex ey) in *.
  set (ax := fst (shl_align mx ex ez)) in *.
  set (ay := fst (shl_align my ey ez)) in *.
  change (Z.pos ax + Z.pos ay) with (Z.pos (ax + ay)). cbn [binary_normalize].
  assert (Vs : scaled c (Z.pos (ax + ay)) ez = scaled c (Z.pos mx) ex + scaled c (Z.pos my) ey).
  { rewrite Pos2Z.inj_add, scaled_add, Vx, Vy. reflexivity. }
  pose proof (scaled_pos (Z.pos mx) ex ltac:(lia) ltac:(lia)).
  pose proof (scaled_pos (Z.pos my) ey ltac:(lia) ltac:(lia)).
  pose proof (binary_round_lower false (ax + ay) ez mx ex ltac:(lia) Hx ltac:(lia)) as Lx.
  pose proof (binary_round_lower false (ax + ay) ez my ey ltac:(lia) Hy ltac:(lia)) as Ly.
  destruct (binary_round prec emax false (ax + ay) ez); try contradiction; intuition.
Qed.

Lemma SFsub_positive (mx : positive) (ex : Z) (my : positive) (ey : Z) :
  bounded prec emax mx ex = true -> bounded prec emax my ey = true ->
  match SFsub prec emax (S754_finite false mx ex) (S754_finite false my ey) with
  | S754_zero _ => True
  | S754_finite _ m3 e3 =>
      bounded prec emax m3 e3 = true /\
      (scaled c (Z.pos m3) e3 <= scaled c (Z.pos mx) ex \/
       scaled c (Z.pos m3) e3 <= scaled c (Z.pos my) ey)
  | _ => False
  end.
Proof.
  intros Hx Hy.
  pose proof (proj1 (bounded_iff mx ex) Hx) as [Hcx _].
  pose proof (proj1 (bounded_iff my ey) Hy) as [Hcy _].
  destruct (canonical_digits mx ex Hcx) as (Hex & _).
  destruct (canonical_digits my ey Hcy) as (Hey & _).
  destruct (aligned_values mx ex my ey) as [Vx Vy]; try lia.
  cbn [SFsub cond_Zopp]. cbv zeta in Vx, Vy.
  set (ez := Z.min ex ey) in *.
  set (ax := fst (shl_align mx ex ez)) in *.
  set (ay := fst (shl_align my ey ez)) in *.
  pose proof (scaled_pos (Z.pos mx) ex ltac:(lia) ltac:(lia)).
  pose proof (scaled_pos (Z.pos my) ey ltac:(lia) ltac:(lia)).
  destruct (Z.pos ax - Z.pos ay) as [|p|p] eqn:E; cbn [binary_normalize].
  - exact I.
  - assert (Vp : scaled c (Z.pos p) ez <= scaled c (Z.pos mx) ex).
    { rewrite <- Vx. replace (Z.pos ax) with (Z.pos p + Z.pos ay) by lia.
      rewrite scaled_add. lia. }
    pose proof (binary_round_upper false p ez mx ex ltac:(lia) Hx Vp) as U.
    destruct (binary_round prec emax false p ez); try contradiction; intuition.
  - assert (Vp : scaled c (Z.pos p) ez <= scaled c (Z.pos my) ey).
    { rewrite <- Vy. replace (Z.pos ay) with (Z.pos p + Z.pos ax) by lia.
      rewrite scaled_add. lia. }
    pose proof (binary_round_upper true p ez my ey ltac:(lia) Hy Vp) as U.
    destruct (binary_round prec emax true p ez); try contradiction; intuition.
Qed.

End Format.

(** ** Quotient of two numbers of the format *)

Lemma scaled_rebase (c c' m e : Z) :
  c' <= c -> c <= e -> scaled c' m e = scaled c m e * 2 ^ (c - c').
Proof.
  intros H1 H2. unfold scaled. replace (e - c') with (e - c + (c - c')) by lia.
  rewrite pow2_add by lia. lia.
Qed.

Lemma scaled_le_rebase (c c' a ea b eb : Z) :
  c' <= c -> c <= ea -> c <= eb ->
  (scaled c a ea <= scaled c b eb <-> scaled c' a ea <= scaled c' b eb).
Proof.
  intros H Ha Hb. rewrite (scaled_rebase c c' a ea), (scaled_rebase c c' b eb) by lia.
  apply Z.mul_le_mono_pos_r. apply pow2_pos. lia.
Qed.

Lemma new_location_inexact (n r : Z) :
  loc_inexact (new_location n r) = negb (r =? 0).
Proof.
  unfold new_location, new_location_even, new_location_odd.
  destruct (Z.even n), (r =? 0); reflexivity.
Qed.

Lemma SFdiv_core_binary_eq (prec emax : Z) (m1 e1 m2 e2 : Z) :
  0 < m1 ->
  let e' := Z.min (SpecFloat.fexp prec emax (Zdigits2 m1 + e1 - (Zdigits2 m2 + e2)))
                  (e1 - e2) in
  let m' := m1 * 2 ^ (e1 - e2 - e') in
  SFdiv_core_binary prec emax m1 e1 m2 e2 = (m' / m2, e', new_location m2 (m' mod m2)).
Proof.
  intros Hm e' m'. unfold SFdiv_core_binary. fold e'.
  assert (Es : match e1 - e2 - e' with
               | Z.pos _ => Z.shiftl m1 (e1 - e2 - e')
               | 0 => m1
               | Z.neg _ => 0
               end = m').
  { unfold m'. assert (Hs : 0 <= e1 - e2 - e') by (unfold e'; lia).
    destruct (e1 - e2 - e') as [|p|p] eqn:E; try lia.
    apply Z.shiftl_mul_pow2. lia. }
  rewrite Es. unfold Z.div, Z.modulo.
  destruct (Z.div_eucl m' m2) as [q r]. reflexivity.
Qed.

Section Division.

Variables prec emax : Z.
Hypothesis prec_pos : 0 < prec.
Hypothesis prec_lt_emax : prec < emax.

Local Abbreviation emin := (SpecFloat.emin prec emax).
Local Abbreviation fexp := (SpecFloat.fexp prec emax).

Lemma one_bounded : bounded prec emax (one_mantissa prec) (1 - prec) = true.
Proof.
  apply bounded_iff. unfold one_mantissa.
  pose proof (pow2_pos (prec - 1) ltac:(lia)) as Hp.
  rewrite Z2Pos.id by exact Hp.
  rewrite (Zdigits2_unique (2 ^ (prec - 1)) prec prec_pos).
  - unfold SpecFloat.fexp, SpecFloat.emin. lia.
  - split; [lia|apply pow2_lt; lia].
Qed.

Lemma one_scaled (c : Z) :
  c <= emin -> scaled c (Z.pos (one_mantissa prec)) (1 - prec) = 2 ^ (- c).
Proof.
  intros Hc. unfold scaled, one_mantissa. unfold SpecFloat.emin in Hc.
  rewrite Z2Pos.id by (apply pow2_pos; lia).
  rewrite <- pow2_add by lia. f_equal. lia.
Qed.

(** The quotient of a number by one that is not smaller does not exceed one. *)
Lemma SFdiv_at_most_one (c : Z) (sd : bool) (md : positive) (ed : Z)
    (ss : bool) (ms : positive) (es : Z) :
  c <= emin -> c <= ed -> c <= es ->
  scaled c (Z.pos md) ed <= scaled c (Z.pos ms) es ->
  match SFdiv prec emax (S754_finite sd md ed) (S754_finite ss ms es) with
  | S754_zero _ => True
  | S754_finite _ m3 e3 =>
      bounded prec emax m3 e3 = true /\
      scaled c (Z.pos m3) e3 <= scaled c (Z.pos (one_mantissa prec)) (1 - prec)
  | _ => False
  end.
Proof.
  intros Hc Hed Hes Hle. cbn [SFdiv].
  rewrite SFdiv_core_binary_eq by lia. cbv zeta.
  set (delta := Zdigits2 (Z.pos md) + ed - (Zdigits2 (Z.pos ms) + es)).
  set (e' := Z.min (fexp delta) (ed - es)).
  set (sh := ed - es - e').
  set (m' := Z.pos md * 2 ^ sh).
  assert (Hsh : 0 <= sh) by (unfold sh, e'; lia).
  pose proof (pow2_pos sh Hsh) as Hpsh.
  assert (Hm' : 0 < m') by (unfold m'; lia).
  pose proof (Zdigits2_pos (Z.pos md) ltac:(lia)) as Hdd.
  pose proof (Zdigits2_pos (Z.pos ms) ltac:(lia)) as Hds.
  (* the divisor has at least as many places as the dividend *)
  assert (Hdelta : delta <= 0).
  { destruct (Z_le_gt_dec delta 0) as [|Hgt]; [assumption|exfalso].
    pose proof (scaled_lt_of_magnitude c (Z.pos ms) es (Z.pos md) ed
                  ltac:(lia) ltac:(lia) Hes Hed ltac:(unfold delta in Hgt; lia)).
    lia. }
  assert (He'0 : e' <= 0).
  { unfold e'. pose proof (fexp_spec prec emax delta).
    unfold SpecFloat.emin in *. lia. }
  (* the quotient has enough bits *)
  assert (Hq0 : 0 <= m' / Z.pos ms) by (apply Z.div_pos; lia).
  assert (Hdq : delta <= Zdigits2 (m' / Z.pos ms) + e').
  { pose proof (Zdigits2_nonneg (m' / Z.pos ms)).
    destruct (Z_le_gt_dec (Zdigits2 (Z.pos md) + sh - Zdigits2 (Z.pos ms)) 0) as [|Hgt].
    - unfold delta, sh in *. lia.
    - assert (Hlow : 2 ^ (Zdigits2 (Z.pos md) + sh - Zdigits2 (Z.pos ms) - 1)
                     <= m' / Z.pos ms).
      { apply Z.div_le_lower_bound; [lia|].
        pose proof (Zdigits2_bounds (Z.pos md) ltac:(lia)) as [Hlo _].
        pose proof (Zdigits2_bounds (Z.pos ms) ltac:(lia)) as [_ Hhi].
        set (t := Zdigits2 (Z.pos md) + sh - Zdigits2 (Z.pos ms) - 1) in *.
        pose proof (pow2_pos t ltac:(lia)) as Hpt.
        assert (Hms : Z.pos ms * 2 ^ t <= 2 ^ Zdigits2 (Z.pos ms) * 2 ^ t)
          by (apply Z.mul_le_mono_nonneg_r; lia).
        rewrite <- pow2_add in Hms by lia.
        replace (Zdigits2 (Z.pos ms) + t) with (Zdigits2 (Z.pos md) - 1 + sh) in Hms
          by (unfold t; lia).
        rewrite pow2_add in Hms by lia.
        assert (Hmd : 2 ^ (Zdigits2 (Z.pos md) - 1) * 2 ^ sh <= m')
          by (unfold m'; apply Z.mul_le_mono_nonneg_r; lia).
        lia. }
      pose proof (Zdigits2_ge_pow (m' / Z.pos ms)
                    (Zdigits2 (Z.pos md) + sh - Zdigits2 (Z.pos ms) - 1) ltac:(lia) Hlow).
      unfold delta, sh in *. lia. }
  assert (Hpre : e' <= fexp (Zdigits2 (m' / Z.pos ms) + e')).
  { pose proof (fexp_mono prec emax _ _ Hdq).
    assert (e' <= fexp delta) by (unfold e'; lia). lia. }
  (* the quotient is at most one *)
  pose proof (pow2_pos (- e') ltac:(lia)) as Hpe.
  assert (Hnum : m' <= Z.pos ms * 2 ^ (- e')).
  { pose proof (pow2_pos (es - c) ltac:(lia)) as Hpes.
    apply (Z.mul_le_mono_pos_r _ _ (2 ^ (es - c)) Hpes).
    unfold m'. rewrite <- !Z.mul_assoc, <- !pow2_add by lia.
    replace (sh + (es - c)) with (ed - c + - e') by (unfold sh; lia).
    replace (- e' + (es - c)) with (es - c + - e') by lia.
    rewrite !pow2_add by lia. rewrite !Z.mul_assoc.
    apply Z.mul_le_mono_nonneg_r; [lia|]. exact Hle. }
  assert (Hq : m' / Z.pos ms <= 2 ^ (- e')).
  { apply Z.div_le_upper_bound; lia. }
  assert (Hqs : m' mod Z.pos ms <> 0 -> m' / Z.pos ms < 2 ^ (- e')).
  { intros Hr. pose proof (Z.div_mod m' (Z.pos ms) ltac:(lia)).
    pose proof (Z.mod_pos_bound m' (Z.pos ms) ltac:(lia)).
    assert (Hprod : Z.pos ms * (m' / Z.pos ms) < Z.pos ms * 2 ^ (- e')) by lia.
    apply Z.mul_lt_mono_pos_l in Hprod; lia. }
  set (c' := Z.min c e').
  assert (Hc' : c' <= emin) by (unfold c'; lia).
  assert (Hone : scaled c' (m' / Z.pos ms) e' <= 2 ^ (- c') /\
                 (m' mod Z.pos ms <> 0 -> scaled c' (m' / Z.pos ms) e' < 2 ^ (- c'))).
  { unfold scaled. replace (- c') with (- e' + (e' - c')) by lia.
    rewrite pow2_add by (unfold c'; lia).
    pose proof (pow2_pos (e' - c') ltac:(unfold c'; lia)).
    split.
    - apply Z.mul_le_mono_nonneg_r; lia.
    - intros Hr. apply Z.mul_lt_mono_pos_r; [lia|]. apply Hqs, Hr. }
  destruct Hone as [Hone Hstrict].
  rewrite <- (one_scaled c' Hc') in Hone, Hstrict.
  pose proof (binary_round_aux_upper prec emax prec_pos c' Hc' (xorb sd ss)
                (m' / Z.pos ms) e' (new_location (Z.pos ms) (m' mod Z.pos ms))
                (one_mantissa prec) (1 - prec) Hq0 ltac:(unfold c'; lia) Hpre
                one_bounded Hone) as U.
  rewrite new_location_inexact in U.
  assert (Hst : negb (m' mod Z.pos ms =? 0) = true ->
                scaled c' (m' / Z.pos ms) e'
                < scaled c' (Z.pos (one_mantissa prec)) (1 - prec)).
  { intros Hb. apply Hstrict. destruct (Z.eqb_spec (m' mod Z.pos ms) 0); [discriminate|assumption]. }
  specialize (U Hst).
  destruct (binary_round_aux prec emax (xorb sd ss) (m' / Z.pos ms) e'
              (new_location (Z.pos ms) (m' mod Z.pos ms))) as [s'|s'| |s' m3 e3];
    try contradiction; [exact I|].
  destruct U as (_ & Hb3 & Hv3). split; [exact Hb3|].
  pose proof (proj1 (bounded_iff prec emax m3 e3) Hb3) as [Hc3 _].
  destruct (canonical_digits prec emax m3 e3 Hc3) as (He3 & _).
  apply (scaled_le_rebase c c'); trivial; unfold c', SpecFloat.emin in *; lia.
Qed.

End Division.

(** ** Order of the numbers of the format *)

Section Order.

Variables prec emax : Z.
Variable c : Z.
Hypothesis c_small : c <= SpecFloat.emin prec emax.

Lemma scaled_le_same_exponent (m1 m2 : positive) (e : Z) :
  c <= e -> scaled c (Z.pos m1) e <= scaled c (Z.pos m2) e -> (m1 <= m2)%positive.
Proof.
  intros He H. unfold scaled in H.
  apply Z.mul_le_mono_pos_r in H; [exact H|apply pow2_pos; lia].
Qed.

Lemma SFleb_positive (m1 : positive) (e1 : Z) (m2 : positive) (e2 : Z) :
  SpecFloat.fexp prec emax (Zdigits2 (Z.pos m1) + e1) = e1 ->
  SpecFloat.fexp prec emax (Zdigits2 (Z.pos m2) + e2) = e2 ->
  scaled c (Z.pos m1) e1 <= scaled c (Z.pos m2) e2 ->
  SFleb (S754_finite false m1 e1) (S754_finite false m2 e2) = true.
Proof.
  intros H1 H2 Hle.
  pose proof (canonical_exponent_le prec emax c c_small m1 e1 m2 e2 H1 H2 Hle) as He.
  destruct (canonical_digits prec emax m1 e1 H1) as (Hmin & _).
  unfold SFleb, SFcompare.
  destruct (Z.compare_spec e1 e2) as [E|E|E]; try reflexivity; try lia.
  subst e2. pose proof (scaled_le_same_exponent m1 m2 e1 ltac:(lia) Hle) as Hm.
  change (Pos.compare_cont Eq m1 m2) with (Pos.compare m1 m2).
  destruct (Pos.compare_spec m1 m2); try reflexivity. lia.
Qed.

Lemma SFleb_negative (m1 : positive) (e1 : Z) (m2 : positive) (e2 : Z) :
  SpecFloat.fexp prec emax (Zdigits2 (Z.pos m1) + e1) = e1 ->
  SpecFloat.fexp prec emax (Zdigits2 (Z.pos m2) + e2) = e2 ->
  scaled c (Z.pos m1) e1 <= scaled c (Z.pos m2) e2 ->
  SFleb (S754_finite true m2 e2) (S754_finite true m1 e1) = true.
Proof.
  intros H1 H2 Hle.
  pose proof (canonical_exponent_le prec emax c c_small m1 e1 m2 e2 H1 H2 Hle) as He.
  destruct (canonical_digits prec emax m1 e1 H1) as (Hmin & _).
  unfold SFleb, SFcompare.
  destruct (Z.compare_spec e2 e1) as [E|E|E]; try reflexivity; try lia.
  subst e2. pose proof (scaled_le_same_exponent m1 m2 e1 ltac:(lia) Hle) as Hm.
  change (Pos.compare_cont Eq m2 m1) with (Pos.compare m2 m1).
  destruct (Pos.compare_spec m2 m1); try reflexivity. lia.
Qed.

(** Two canonical numbers with the same value are the same. *)
Lemma canonical_unique (m1 : positive) (e1 : Z) (m2 : positive) (e2 : Z) :
  SpecFloat.fexp prec emax (Zdigits2 (Z.pos m1) + e1) = e1 ->
  SpecFloat.fexp prec emax (Zdigits2 (Z.pos m2) + e2) = e2 ->
  scaled c (Z.pos m1) e1 = scaled c (Z.pos m2) e2 ->
  m1 = m2 /\ e1 = e2.
Proof.
  intros H1 H2 E.
  pose proof (canonical_exponent_le prec emax c c_small m1 e1 m2 e2 H1 H2 ltac:(lia)).
  pose proof (canonical_exponent_le prec emax c c_small m2 e2 m1 e1 H2 H1 ltac:(lia)).
  assert (Ee : e1 = e2) by lia. subst e2. split; [|reflexivity].
  destruct (canonical_digits prec emax m1 e1 H1) as (Hmin & _).
  unfold scaled in E. apply Z.mul_cancel_r in E.
  - congruence.
  - pose proof (pow2_pos (e1 - c) ltac:(lia)). lia.
Qed.

End Order.

(** ** Sums that are numbers of the format *)

Section Exact.

Variables prec emax : Z.
Hypothesis prec_pos : 0 < prec.

Local Abbreviation emin := (SpecFloat.emin prec emax).
Local Abbreviation fexp := (SpecFloat.fexp prec emax).

(** A positive integer that fits is the value of a canonical number. *)
Lemma fits_in_representable (N : Z) :
  0 < N -> fits_in prec emax N = true ->
  exists (m : positive) (e : Z),
    bounded prec emax m e = true /\ scaled emin (Z.pos m) e = N.
Proof.
  intros HN Hfit. unfold fits_in in Hfit. cbv zeta in Hfit.
  set (e := fexp (Zdigits2 N + emin)) in *.
  apply andb_true_iff in Hfit. destruct Hfit as [Hfit He].
  apply andb_true_iff in Hfit. destruct Hfit as [_ Hmod].
  apply Z.leb_le in He. apply Z.eqb_eq in Hmod.
  assert (Hj : 0 <= e - emin) by (unfold e; destruct (fexp_spec prec emax (Zdigits2 N + emin)); lia).
  pose proof (pow2_pos (e - emin) Hj) as Hp.
  pose proof (Z.div_mod N (2 ^ (e - emin)) ltac:(lia)) as Hdm.
  rewrite Hmod, Z.add_0_r in Hdm.
  assert (Hq : 0 < N / 2 ^ (e - emin)).
  { destruct (Z_lt_le_dec 0 (N / 2 ^ (e - emin))) as [|Hle]; [assumption|exfalso].
    pose proof (Z.div_pos N (2 ^ (e - emin)) ltac:(lia) Hp).
    assert (N / 2 ^ (e - emin) = 0) by lia. lia. }
  destruct (N / 2 ^ (e - emin)) as [|m|m] eqn:Em; try lia.
  exists m, e. split.
  - apply bounded_iff. split; [|exact He].
    assert (Hd : Zdigits2 N = Zdigits2 (Z.pos m) + (e - emin)).
    { rewrite Hdm at 1. rewrite Z.mul_comm. apply Zdigits2_shift; lia. }
    replace (Zdigits2 (Z.pos m) + e) with (Zdigits2 N + emin) by lia.
    reflexivity.
  - unfold scaled. lia.
Qed.

(** Rounding does nothing to a value that is a number of the format. *)
Lemma binary_round_exact (s : bool) (mx : positive) (ex : Z) (mf : positive) (ef : Z) :
  emin <= ex -> bounded prec emax mf ef = true ->
  scaled emin (Z.pos mx) ex = scaled emin (Z.pos mf) ef ->
  binary_round prec emax s mx ex = S754_finite s mf ef.
Proof.
  intros Hex Hf E.
  pose proof (binary_round_upper prec emax prec_pos emin (Z.le_refl _) s mx ex mf ef
                Hex Hf ltac:(lia)) as U.
  pose proof (binary_round_lower prec emax prec_pos emin (Z.le_refl _) s mx ex mf ef
                Hex Hf ltac:(lia)) as L.
  destruct (binary_round prec emax s mx ex) as [s'|s'| |s' m3 e3]; try contradiction.
  destruct U as (-> & Hb3 & Hu). destruct L as (_ & _ & Hl).
  apply bounded_iff in Hb3, Hf.
  destruct (canonical_unique prec emax emin (Z.le_refl _) m3 e3 mf ef
              (proj1 Hb3) (proj1 Hf) ltac:(lia)) as [-> ->].
  reflexivity.
Qed.

Lemma scaled_cond_Zopp (s : bool) (c m e : Z) :
  scaled c (cond_Zopp s m) e = cond_Zopp s (scaled c m e).
Proof. unfold scaled. destruct s; cbn [cond_Zopp]; lia. Qed.

(** The sum of two numbers of the format, of any signs, is their true sum
    whenever that is a number of the format: [+0] when it is zero. *)
Lemma SFadd_exact (sx : bool) (mx : positive) (ex : Z)
    (sy : bool) (my : positive) (ey : Z) :
  bounded prec emax mx ex = true -> bounded prec emax my ey = true ->
  let V := cond_Zopp sx (scaled emin (Z.pos mx) ex)
           + cond_Zopp sy (scaled emin (Z.pos my) ey) in
  fits_in prec emax (Z.abs V) = true ->
  (V = 0 /\
   SFadd prec emax (S754_finite sx mx ex) (S754_finite sy my ey) = S754_zero false) \/
  (V <> 0 /\
   exists (mf : positive) (ef : Z),
     bounded prec emax mf ef = true /\ scaled emin (Z.pos mf) ef = Z.abs V /\
     SFadd prec emax (S754_finite sx mx ex) (S754_finite sy my ey)
     = S754_finite (V <? 0) mf ef).
Proof.
  intros Hx Hy V Hfit.
  pose proof (proj1 (bounded_iff prec emax mx ex) Hx) as [Hcx _].
  pose proof (proj1 (bounded_iff prec emax my ey) Hy) as [Hcy _].
  destruct (canonical_digits prec emax mx ex Hcx) as (Hex & _).
  destruct (canonical_digits prec emax my ey Hcy) as (Hey & _).
  destruct (aligned_values emin mx ex my ey) as [Vx Vy]; try lia.
  cbn [SFadd]. cbv zeta in Vx, Vy.
  set (ez := Z.min ex ey) in *.
  set (ax := fst (shl_align mx ex ez)) in *.
  set (ay := fst (shl_align my ey ez)) in *.
  assert (EV : scaled emin (cond_Zopp sx (Z.pos ax) + cond_Zopp sy (Z.pos ay)) ez = V).
  { rewrite scaled_add, !scaled_cond_Zopp, Vx, Vy. reflexivity. }
  pose proof (pow2_pos (ez - emin) ltac:(lia)) as Hu.
  destruct (cond_Zopp sx (Z.pos ax) + cond_Zopp sy (Z.pos ay)) as [|p|p] eqn:EZ;
    cbn [binary_normalize].
  - left. split; [|reflexivity]. rewrite <- EV. unfold scaled. lia.
  - right.
    assert (HV : 0 < V) by (rewrite <- EV; unfold scaled; lia).
    split; [lia|].
    rewrite Z.abs_eq in Hfit by lia.
    destruct (fits_in_representable V HV Hfit) as (mf & ef & Hbf & Ef).
    exists mf, ef. split; [exact Hbf|]. split; [rewrite Z.abs_eq by lia; exact Ef|].
    replace (V <? 0) with false by (symmetry; apply Z.ltb_ge; lia).
    apply binary_round_exact; [lia|exact Hbf|]. rewrite Ef. exact EV.
  - right.
    assert (HV : V < 0).
    { rewrite <- EV. unfold scaled.
      assert (0 < Z.pos p * 2 ^ (ez - emin)) by lia.
      rewrite <- Pos2Z.opp_pos. lia. }
    split; [lia|].
    rewrite Z.abs_neq in Hfit by lia.
    destruct (fits_in_representable (- V) ltac:(lia) Hfit) as (mf & ef & Hbf & Ef).
    exists mf, ef. split; [exact Hbf|]. split; [rewrite Z.abs_neq by lia; exact Ef|].
    replace (V <? 0) with true by (symmetry; apply Z.ltb_lt; lia).
    apply binary_round_exact; [lia|exact Hbf|]. rewrite Ef, <- EV.
    unfold scaled. rewrite <- Pos2Z.opp_pos. lia.
Qed.

End Exact.

(** * The order book under sequences of calls *)

(** ** Basic facts *)

Lemma fold_sum_from (os : list Order) (acc : double) :
  fold_left (fun vol o => (vol + quantity o)%dbl) os acc
  = sum_from acc (map quantity os).
Proof.
  revert acc. induction os as [|o os IH]; intros acc; simpl.
  - reflexivity.
  - apply IH.
Qed.

Lemma total_bid_vol_sum (b : OrderBook) : total_bid_vol b = sum_quantities (bids b).
Proof. apply fold_sum_from. Qed.

Lemma total_ask_vol_sum (b : OrderBook) : total_ask_vol b = sum_quantities (asks b).
Proof. apply fold_sum_from. Qed.

(** ** The book after a sequence of calls *)

Lemma do_calls_app (cs1 cs2 : list Call) (b : OrderBook) :
  do_calls (cs1 ++ cs2) b = do_calls cs2 (do_calls cs1 b).
Proof. apply fold_left_app. Qed.

Lemma bids_do_calls (cs : list Call) (b : OrderBook) :
  bids (do_calls cs b) = bids b ++ map order_of_call (filter c_is_bid cs).
Proof.
  revert b. induction cs as [|c cs IH]; intros b; simpl.
  - now rewrite app_nil_r.
  - unfold do_calls in IH. rewrite IH. unfold do_call, add_order, push_back.
    destruct (c_is_bid c); simpl.
    + now rewrite <- app_assoc.
    + reflexivity.
Qed.

Lemma asks_do_calls (cs : list Call) (b : OrderBook) :
  asks (do_calls cs b) = asks b ++ map order_of_call (filter c_is_ask cs).
Proof.
  revert b. induction cs as [|c cs IH]; intros b; simpl.
  - now rewrite app_nil_r.
  - unfold do_calls in IH. rewrite IH. unfold do_call, add_order, push_back, c_is_ask.
    destruct (c_is_bid c); simpl.
    + reflexivity.
    + now rewrite <- app_assoc.
Qed.

(** The imbalance is a function of the two sequences of stored quantities. *)
Lemma get_imbalance_quantities (b1 b2 : OrderBook) :
  map quantity (bids b1) = map quantity (bids b2) ->
  map quantity (asks b1) = map quantity (asks b2) ->
  total_bid_vol b1 = total_bid_vol b2 /\
  total_ask_vol b1 = total_ask_vol b2 /\
  get_imbalance b1 = get_imbalance b2.
Proof.
  intros Hb Ha.
  assert (Eb : total_bid_vol b1 = total_bid_vol b2).
  { rewrite !total_bid_vol_sum. unfold sum_quantities. now rewrite Hb. }
  assert (Ea : total_ask_vol b1 = total_ask_vol b2).
  { rewrite !total_ask_vol_sum. unfold sum_quantities. now rewrite Ha. }
  repeat split; trivial.
  unfold get_imbalance. now rewrite Eb, Ea.
Qed.

Lemma quantities_of_side (side : bool) (cs : list Call) :
  map quantity (map order_of_call (filter (fun c => Bool.eqb (c_is_bid c) side) cs))
  = map fst (filter (fun qs => Bool.eqb (snd qs) side) (map quantity_and_side cs)).
Proof.
  induction cs as [|c cs IH]; [reflexivity|].
  cbn [map filter quantity_and_side snd].
  destruct (Bool.eqb (c_is_bid c) side); cbn [map fst]; rewrite IH; reflexivity.
Qed.

Lemma filter_bid_eqb (cs : list Call) :
  filter c_is_bid cs = filter (fun c => Bool.eqb (c_is_bid c) true) cs.
Proof.
  apply filter_ext. intros c. now destruct (c_is_bid c).
Qed.

Lemma filter_ask_eqb (cs : list Call) :
  filter c_is_ask cs = filter (fun c => Bool.eqb (c_is_bid c) false) cs.
Proof.
  apply filter_ext. intros c. unfold c_is_ask. now destruct (c_is_bid c).
Qed.

(** ** The book after a history with [clear] *)

Lemma do_ops_app (os1 os2 : list Op) (b : OrderBook) :
  do_ops (os1 ++ os2) b = do_ops os2 (do_ops os1 b).
Proof. apply fold_left_app. Qed.

Lemma do_ops_after_clear (history recent : list Op) (b : OrderBook) :
  do_ops (history ++ OpClear :: recent) b = do_ops recent new_OrderBook.
Proof. rewrite do_ops_app. reflexivity. Qed.

Lemma size_app {A : Type} (v : list A) (x : A) : size (v ++ [x]) = size v + 1.
Proof. unfold size. rewrite length_app. simpl. lia. Qed.

Lemma sizes_do_ops (os : list Op) (b : OrderBook) :
  existsb op_is_clear os = false ->
  size (bids (do_ops os b)) = size (bids b) + count op_is_bid os /\
  size (asks (do_ops os b)) = size (asks b) + count op_is_ask os.
Proof.
  revert b. induction os as [|o os IH]; intros b H.
  - unfold count. simpl. lia.
  - simpl in H. apply orb_false_iff in H. destruct H as [Ho Hos].
    destruct o as [c|]; [|discriminate].
    change (do_ops (OpAdd c :: os) b) with (do_ops os (do_call b c)).
    destruct (IH (do_call b c) Hos) as [-> ->].
    unfold count, do_call, add_order, push_back. cbn [filter op_is_bid op_is_ask].
    destruct (c_is_bid c); cbn [negb bids asks length]; rewrite ?size_app; lia.
Qed.

Lemma to_int_small (z : Z) : 0 <= z <= int_max -> to_int z = z.
Proof.
  unfold to_int, int_max. intros H. rewrite Z.mod_small; lia.
Qed.

Lemma count_nonneg {A : Type} (p : A -> bool) (l : list A) : 0 <= count p l.
Proof. unfold count. lia. Qed.

Lemma count_repeat {A : Type} (p : A -> bool) (x : A) (n : nat) :
  p x = true -> count p (repeat x n) = Z.of_nat n.
Proof.
  intros Hp. unfold count. f_equal.
  induction n as [|n IH]; [reflexivity|].
  cbn [repeat filter]. rewrite Hp. cbn [length]. now rewrite IH.
Qed.

Lemma existsb_repeat {A : Type} (p : A -> bool) (x : A) (n : nat) :
  p x = false -> existsb p (repeat x n) = false.
Proof.
  intros Hp. induction n as [|n IH]; [reflexivity|].
  cbn [repeat existsb]. now rewrite Hp, IH.
Qed.

(** ** The imbalance of non-negative quantities *)

Lemma double_prec_pos : 0 < Double.prec.
Proof. reflexivity. Qed.

Lemma double_prec_lt_emax : Double.prec < Double.emax.
Proof. reflexivity. Qed.

(** The unit of the smallest binary64 number, [2^-1074]. *)
Lemma double_unit : SpecFloat.emin Double.prec Double.emax <= SpecFloat.emin Double.prec Double.emax.
Proof. apply Z.le_refl. Qed.

Lemma nonneg_cases (x : double) :
  nonneg x = true ->
  match x with
  | S754_zero _ => True
  | S754_infinity s => s = false
  | S754_nan => False
  | S754_finite s m e => s = false /\ bounded Double.prec Double.emax m e = true
  end.
Proof.
  unfold nonneg, Double.valid, Double.leb, Double.zero.
  intros H. apply andb_true_iff in H. destruct H as [Hv Hl].
  destruct x as [[]|[]| |[] m e]; cbn in Hv, Hl; try discriminate; auto.
Qed.

Lemma nonneg_of_cases (x : double) :
  match x with
  | S754_zero _ => True
  | S754_infinity s => s = false
  | S754_nan => False
  | S754_finite s m e => s = false /\ bounded Double.prec Double.emax m e = true
  end -> nonneg x = true.
Proof.
  unfold nonneg, Double.valid, Double.leb, Double.zero.
  destruct x as [[]|[]| |[] m e]; intros H; try discriminate; try contradiction;
    try reflexivity; try (destruct H; discriminate).
  destruct H as [_ H]. apply andb_true_iff. split; [exact H|reflexivity].
Qed.

Ltac nonneg_shapes :=
  repeat match goal with
  | H : False |- _ => contradiction
  | H : _ = false /\ _ |- _ => destruct H
  | H : ?s = false |- _ => is_var s; subst s
  end.

Lemma add_nonneg (x y : double) :
  nonneg x = true -> nonneg y = true -> nonneg (x + y)%dbl = true.
Proof.
  intros Hx Hy. apply nonneg_cases in Hx, Hy. apply nonneg_of_cases.
  unfold Double.add.
  destruct x as [sx|sx| |sx mx ex], y as [sy|sy| |sy my ey];
    nonneg_shapes; try (cbn; auto; fail).
  - destruct sx, sy; exact I.
  - pose proof (SFadd_positive Double.prec Double.emax double_prec_pos _ double_unit
                  mx ex my ey ltac:(assumption) ltac:(assumption)) as H.
    destruct (SFadd Double.prec Double.emax (S754_finite false mx ex)
                (S754_finite false my ey)); try contradiction; intuition.
Qed.

Lemma fold_add_nonneg (os : list Order) (acc : double) :
  Forall (fun o => nonneg (quantity o) = true) os -> nonneg acc = true ->
  nonneg (fold_left (fun vol o => (vol + quantity o)%dbl) os acc) = true.
Proof.
  intros H. revert acc. induction H as [|o os Ho _ IH]; intros acc Hacc; simpl.
  - exact Hacc.
  - apply IH, add_nonneg; assumption.
Qed.

Lemma one_mantissa_double :
  Double.one = S754_finite false (one_mantissa Double.prec) (1 - Double.prec).
Proof. reflexivity. Qed.

Lemma in_unit_range_zero (s : bool) : in_unit_range (S754_zero s) = true.
Proof. destruct s; reflexivity. Qed.

Lemma in_unit_range_finite (s : bool) (m : positive) (e : Z) :
  bounded Double.prec Double.emax m e = true ->
  scaled (SpecFloat.emin Double.prec Double.emax) (Z.pos m) e
    <= scaled (SpecFloat.emin Double.prec Double.emax)
         (Z.pos (one_mantissa Double.prec)) (1 - Double.prec) ->
  in_unit_range (S754_finite s m e) = true.
Proof.
  intros Hb Hle.
  apply bounded_iff in Hb. destruct Hb as [Hc _].
  pose proof (one_bounded Double.prec Double.emax double_prec_pos double_prec_lt_emax) as Ho.
  apply bounded_iff in Ho. destruct Ho as [Ho _].
  unfold in_unit_range, Double.leb, Double.opp. rewrite one_mantissa_double.
  cbn [SFopp negb]. destruct s.
  - rewrite (SFleb_negative Double.prec Double.emax _ double_unit m e _ _ Hc Ho Hle).
    reflexivity.
  - rewrite (SFleb_positive Double.prec Double.emax _ double_unit m e _ _ Hc Ho Hle).
    reflexivity.
Qed.

(** The quotient of [get_imbalance] when the numerator is not larger in
    magnitude than the denominator. *)
Lemma div_in_unit_range (sd : bool) (md : positive) (ed : Z)
    (ss : bool) (ms : positive) (es : Z) :
  bounded Double.prec Double.emax md ed = true ->
  bounded Double.prec Double.emax ms es = true ->
  scaled (SpecFloat.emin Double.prec Double.emax) (Z.pos md) ed
    <= scaled (SpecFloat.emin Double.prec Double.emax) (Z.pos ms) es ->
  in_unit_range (S754_finite sd md ed / S754_finite ss ms es)%dbl = true.
Proof.
  intros Hd Hs Hle.
  pose proof (proj1 (bounded_iff _ _ _ _) Hd) as [Hcd _].
  pose proof (proj1 (bounded_iff _ _ _ _) Hs) as [Hcs _].
  destruct (canonical_digits _ _ _ _ Hcd) as (Hed & _).
  destruct (canonical_digits _ _ _ _ Hcs) as (Hes & _).
  pose proof (SFdiv_at_most_one Double.prec Double.emax double_prec_pos
                double_prec_lt_emax _ sd md ed ss ms es double_unit Hed Hes Hle) as H.
  unfold Double.div.
  destruct (SFdiv Double.prec Double.emax (S754_finite sd md ed) (S754_finite ss ms es))
    as [s'|s'| |s' m3 e3]; try contradiction.
  - apply in_unit_range_zero.
  - destruct H as [Hb3 Hv3]. now apply in_unit_range_finite.
Qed.

(** The value that [get_imbalance] computes from the two totals. *)
Lemma get_imbalance_totals (b : OrderBook) :
  get_imbalance b =
  if ((total_bid_vol b + total_ask_vol b) == Double.zero)%dbl then Double.zero
  else ((total_bid_vol b - total_ask_vol b) / (total_bid_vol b + total_ask_vol b))%dbl.
Proof. reflexivity. Qed.

Lemma ratio_in_unit_range (tb ta : double) :
  nonneg tb = true -> nonneg ta = true ->
  Double.is_finite tb = true -> Double.is_finite ta = true ->
  in_unit_range (if ((tb + ta) == Double.zero)%dbl then Double.zero
                 else ((tb - ta) / (tb + ta))%dbl) = true.
Proof.
  intros Hb Ha Fb Fa. apply nonneg_cases in Hb, Ha.
  destruct tb as [sb|sb| |sb mb eb], ta as [sa|sa| |sa ma ea];
    try discriminate; try contradiction.
  - destruct sb, sa; reflexivity.
  - destruct Ha as [-> Ha].
    change ((S754_zero sb + S754_finite false ma ea)%dbl) with (S754_finite false ma ea).
    change ((S754_zero sb - S754_finite false ma ea)%dbl) with (S754_finite true ma ea).
    change ((S754_finite false ma ea == Double.zero)%dbl) with false.
    cbv iota. apply div_in_unit_range; trivial. lia.
  - destruct Hb as [-> Hb].
    change ((S754_finite false mb eb + S754_zero sa)%dbl) with (S754_finite false mb eb).
    change ((S754_finite false mb eb - S754_zero sa)%dbl) with (S754_finite false mb eb).
    change ((S754_finite false mb eb == Double.zero)%dbl) with false.
    cbv iota. apply div_in_unit_range; trivial. lia.
  - destruct Hb as [-> Hb]. destruct Ha as [-> Ha].
    pose proof (SFadd_positive Double.prec Double.emax double_prec_pos _ double_unit
                  mb eb ma ea Hb Ha) as HA.
    pose proof (SFsub_positive Double.prec Double.emax double_prec_pos _ double_unit
                  mb eb ma ea Hb Ha) as HS.
    unfold Double.add, Double.sub.
    destruct (SFadd Double.prec Double.emax (S754_finite false mb eb)
                (S754_finite false ma ea)) as [st|st| |st mt et]; try contradiction.
    + subst st. change ((S754_infinity false == Double.zero)%dbl) with false. cbv iota.
      destruct (SFsub Double.prec Double.emax (S754_finite false mb eb)
                  (S754_finite false ma ea)) as [sd|sd| |sd md ed]; try contradiction.
      * destruct sd; reflexivity.
      * destruct sd; reflexivity.
    + destruct HA as (-> & Hbt & Hlb & Hla).
      change ((S754_finite false mt et == Double.zero)%dbl) with false. cbv iota.
      destruct (SFsub Double.prec Double.emax (S754_finite false mb eb)
                  (S754_finite false ma ea)) as [sd|sd| |sd md ed]; try contradiction.
      * destruct sd; reflexivity.
      * destruct HS as [Hbd Hld]. apply div_in_unit_range; trivial. lia.
Qed.

Lemma ratio_nan (tb ta : double) :
  nonneg tb = true -> nonneg ta = true ->
  Double.is_finite tb = false \/ Double.is_finite ta = false ->
  (if ((tb + ta) == Double.zero)%dbl then Double.zero
   else ((tb - ta) / (tb + ta))%dbl) = S754_nan.
Proof.
  intros Hb Ha F. apply nonneg_cases in Hb, Ha.
  destruct tb as [sb|sb| |sb mb eb], ta as [sa|sa| |sa ma ea];
    nonneg_shapes; try (destruct F; discriminate); reflexivity.
Qed.

Lemma totals_nonneg (cs : list Call) :
  Forall (fun c => nonneg (c_quantity c) = true) cs ->
  nonneg (total_bid_vol (do_calls cs new_OrderBook)) = true /\
  nonneg (total_ask_vol (do_calls cs new_OrderBook)) = true.
Proof.
  intros H.
  assert (Hside : forall p : Call -> bool,
    Forall (fun o => nonneg (quantity o) = true) (map order_of_call (filter p cs))).
  { intros p. apply Forall_map. apply Forall_forall. intros x Hx.
    apply filter_In in Hx. destruct Hx as [Hx _].
    exact (proj1 (Forall_forall _ _) H x Hx). }
  unfold total_bid_vol, total_ask_vol. rewrite bids_do_calls, asks_do_calls.
  split; apply fold_add_nonneg; trivial; apply Hside.
Qed.

(** ** Totals that need no rounding *)

Lemma finite_double_cases (x : double) :
  finite_double x = true ->
  match x with
  | S754_zero _ => True
  | S754_finite s m e =>
      bounded Double.prec Double.emax m e = true /\
      0 < scaled (SpecFloat.emin Double.prec Double.emax) (Z.pos m) e
  | _ => False
  end.
Proof.
  unfold finite_double, Double.valid. intros H.
  apply andb_true_iff in H. destruct H as [Hv Hf].
  destruct x as [s|s| |s m e]; try discriminate; [exact I|].
  cbn [valid_binary] in Hv. split; [exact Hv|].
  pose proof (proj1 (bounded_iff _ _ _ _) Hv) as [Hc _].
  destruct (canonical_digits _ _ _ _ Hc) as (He & _).
  apply scaled_pos; lia.
Qed.

Lemma finite_double_finite (s : bool) (m : positive) (e : Z) :
  bounded Double.prec Double.emax m e = true -> finite_double (S754_finite s m e) = true.
Proof.
  intros H. unfold finite_double, Double.valid. cbn [valid_binary Double.is_finite].
  rewrite H. reflexivity.
Qed.

Lemma units_finite (s : bool) (m : positive) (e : Z) :
  units (S754_finite s m e)
  = cond_Zopp s (scaled (SpecFloat.emin Double.prec Double.emax) (Z.pos m) e).
Proof. destruct s; reflexivity. Qed.

(** Adding two finite doubles whose true sum is a double gives that sum, and
    never [-0.0] unless both were [-0.0]. *)
Lemma add_exact (x y : double) :
  finite_double x = true -> finite_double y = true ->
  fits (Z.abs (units x + units y)) = true ->
  finite_double (x + y)%dbl = true /\
  units (x + y)%dbl = units x + units y /\
  (x <> S754_zero true -> (x + y)%dbl <> S754_zero true).
Proof.
  intros Hx Hy Hfit.
  pose proof (finite_double_cases x Hx) as Sx.
  pose proof (finite_double_cases y Hy) as Sy.
  destruct x as [sx|sx| |sx mx ex], y as [sy|sy| |sy my ey]; try contradiction.
  - destruct sx, sy; repeat split; try discriminate; intros N; contradiction.
  - repeat split; [exact Hy|]. discriminate.
  - repeat split; [exact Hx| |discriminate].
    change ((S754_finite sx mx ex + S754_zero sy)%dbl) with (S754_finite sx mx ex).
    cbn [units]. lia.
  - destruct Sx as [Hbx _]. destruct Sy as [Hby _].
    rewrite !units_finite in Hfit |- *.
    destruct (SFadd_exact Double.prec Double.emax double_prec_pos sx mx ex sy my ey
                Hbx Hby Hfit) as [[HV E]|[HV (mf & ef & Hbf & Ef & E)]];
      unfold Double.add; rewrite E.
    + repeat split; [|discriminate]. cbn [units]. lia.
    + repeat split; [now apply finite_double_finite| |discriminate].
      rewrite units_finite, Ef.
      destruct (Z.ltb_spec (cond_Zopp sx (scaled (SpecFloat.emin Double.prec Double.emax)
                                            (Z.pos mx) ex)
                            + cond_Zopp sy (scaled (SpecFloat.emin Double.prec Double.emax)
                                              (Z.pos my) ey)) 0);
        cbn [cond_Zopp]; lia.
Qed.

Lemma fold_add_exact (os : list Order) (acc : double) :
  Forall (fun o => finite_double (quantity o) = true) os ->
  finite_double acc = true -> acc <> S754_zero true ->
  sums_fit (units acc) (map quantity os) = true ->
  finite_double (fold_left (fun vol o => (vol + quantity o)%dbl) os acc) = true /\
  units (fold_left (fun vol o => (vol + quantity o)%dbl) os acc)
    = units acc + units_total os /\
  fold_left (fun vol o => (vol + quantity o)%dbl) os acc <> S754_zero true.
Proof.
  intros H. revert acc. induction H as [|o os Ho _ IH]; intros acc Hacc Nacc Hfit.
  - cbn. repeat split; [exact Hacc|lia|exact Nacc].
  - cbn [map sums_fit] in Hfit. apply andb_true_iff in Hfit. destruct Hfit as [Hf Hrest].
    destruct (add_exact acc (quantity o) Hacc Ho Hf) as (Hn & Hu & Hz).
    cbn [fold_left units_total fold_right]. rewrite <- Hu in Hrest.
    destruct (IH _ Hn (Hz Nacc) Hrest) as (Hn' & Hu' & Hz'). repeat split; trivial.
    rewrite Hu', Hu. fold (units_total os). lia.
Qed.

(** Two finite doubles with the same value are the same, the sign of a zero
    left aside. *)
Lemma units_inj (x y : double) :
  finite_double x = true -> finite_double y = true ->
  x <> S754_zero true -> y <> S754_zero true ->
  units x = units y -> x = y.
Proof.
  intros Hx Hy Zx Zy E.
  pose proof (finite_double_cases x Hx) as Sx.
  pose proof (finite_double_cases y Hy) as Sy.
  destruct x as [sx|sx| |sx mx ex], y as [sy|sy| |sy my ey]; try contradiction.
  - destruct sx, sy; try reflexivity; contradiction.
  - destruct Sy as [_ Py]. rewrite units_finite in E. cbn [units] in E.
    destruct sy; cbn [cond_Zopp] in E; lia.
  - destruct Sx as [_ Px]. rewrite units_finite in E. cbn [units] in E.
    destruct sx; cbn [cond_Zopp] in E; lia.
  - destruct Sx as [Hbx Px]. destruct Sy as [Hby Py].
    rewrite !units_finite in E.
    assert (Es : sx = sy) by (destruct sx, sy; cbn [cond_Zopp] in E; try reflexivity; lia).
    subst sy.
    assert (E' : scaled (SpecFloat.emin Double.prec Double.emax) (Z.pos mx) ex
                 = scaled (SpecFloat.emin Double.prec Double.emax) (Z.pos my) ey)
      by (destruct sx; cbn [cond_Zopp] in E; lia).
    apply bounded_iff in Hbx, Hby.
    destruct (canonical_unique Double.prec Double.emax _ double_unit mx ex my ey
                (proj1 Hbx) (proj1 Hby) E') as [-> ->].
    reflexivity.
Qed.

Lemma units_total_permutation (l1 l2 : list Order) :
  Permutation l1 l2 -> units_total l1 = units_total l2.
Proof.
  intros H. induction H as [|x l l' _ IH|x y l|l l' l'' _ IH1 _ IH2].
  - reflexivity.
  - cbn [units_total fold_right]. fold (units_total l) (units_total l'). lia.
  - cbn [units_total fold_right]. lia.
  - lia.
Qed.

(** Two sequences of finite orders that are permutations of each other and
    are both added without rounding have the same sum. *)
Lemma fold_add_permutation (l1 l2 : list Order) :
  Permutation l1 l2 ->
  Forall (fun o => finite_double (quantity o) = true) l1 ->
  adds_exactly l1 = true -> adds_exactly l2 = true ->
  fold_left (fun vol o => (vol + quantity o)%dbl) l1 Double.zero
  = fold_left (fun vol o => (vol + quantity o)%dbl) l2 Double.zero.
Proof.
  intros HP H1 E1 E2.
  assert (H2 : Forall (fun o => finite_double (quantity o) = true) l2)
    by (eapply Permutation_Forall; eassumption).
  assert (Nz : Double.zero <> S754_zero true) by discriminate.
  destruct (fold_add_exact l1 Double.zero H1 eq_refl Nz E1) as (F1 & U1 & Z1).
  destruct (fold_add_exact l2 Double.zero H2 eq_refl Nz E2) as (F2 & U2 & Z2).
  apply units_inj; trivial.
  rewrite U1, U2, (units_total_permutation l1 l2 HP). reflexivity.
Qed.

(** The orders that a permutation of the calls stores on each side. *)
Lemma stored_orders_permutation (cs1 cs2 : list Call) :
  Permutation cs1 cs2 ->
  Permutation (bids (do_calls cs1 new_OrderBook)) (bids (do_calls cs2 new_OrderBook)) /\
  Permutation (asks (do_calls cs1 new_OrderBook)) (asks (do_calls cs2 new_OrderBook)).
Proof.
  intros HP. rewrite !bids_do_calls, !asks_do_calls. cbn [new_OrderBook bids asks app].
  split; apply Permutation_map.
  - induction HP; simpl; repeat match goal with |- context [c_is_bid ?c] =>
      destruct (c_is_bid c) end; eauto using Permutation.
  - induction HP; simpl; repeat match goal with |- context [c_is_ask ?c] =>
      destruct (c_is_ask c) end; eauto using Permutation.
Qed.

Lemma Forall_side_finite (p : Call -> bool) (cs : list Call) :
  Forall (fun c => finite_double (c_quantity c) = true) cs ->
  Forall (fun o => finite_double (quantity o) = true) (map order_of_call (filter p cs)).
Proof.
  intros H. apply Forall_map. apply Forall_forall. intros x Hx.
  apply filter_In in Hx. destruct Hx as [Hx _].
  exact (proj1 (Forall_forall _ _) H x Hx).
Qed.

(** ** The scenarios of the specification *)

Example literal_0_2 : threshold_0_2 = S754_finite false 7205759403792794 (-55).
Proof. reflexivity. Qed.

Example imbalance_80_20 :
  get_imbalance (do_calls (bid_then_ask 80 20) new_OrderBook)
  = S754_finite false 5404319552844595 (-53).
Proof. reflexivity. Qed.

Example scenario_buy :
  check_signals (feed_leader (bid_then_ask 80 20) (new_PairStrategy threshold_0_2)) = Buy.
Proof. reflexivity. Qed.

Example scenario_sell :
  check_signals (feed_leader (bid_then_ask 20 80) (new_PairStrategy threshold_0_2)) = Sell.
Proof. reflexivity. Qed.

Example scenario_none :
  check_signals (feed_leader (bid_then_ask 50 50) (new_PairStrategy threshold_0_2))
  = NoSignal.
Proof. reflexivity. Qed.

Example scenario_follower_ignored :
  check_signals
    (on_market_data 1 (dbl 1) (dbl 80) true (new_PairStrategy threshold_0_2)) = NoSignal.
Proof. reflexivity. Qed.

(** * The claims *)

(** ** C1 *)

(** C1: for every book, [get_imbalance] is [0.0] when the sum of the bid
    quantities plus the sum of the ask quantities compares equal to [0]
    (the exact [==] of doubles), and is otherwise
    [(totalBidVol - totalAskVol) / (totalBidVol + totalAskVol)], the two
    totals being the sums of the stored quantities. *)
Theorem get_imbalance_spec (b : OrderBook) :
  let totalBidVol := sum_quantities (bids b) in
  let totalAskVol := sum_quantities (asks b) in
  get_imbalance b =
  if ((totalBidVol + totalAskVol) == Double.zero)%dbl then Double.zero
  else ((totalBidVol - totalAskVol) / (totalBidVol + totalAskVol))%dbl.
Proof.
  unfold get_imbalance.
  rewrite total_bid_vol_sum, total_ask_vol_sum. reflexivity.
Qed.

(** ** C2 *)

(** C2 (amended): for a strategy whose threshold [T] is not negative and every
    leader book, [check_signals] is [Buy] when the leader imbalance is
    strictly above [T], [Sell] when it is strictly below [-T] and [NoSignal]
    otherwise; an imbalance equal to [T] or to [-T] gives [NoSignal]. *)
Theorem check_signals_thresholds (s : PairStrategy) :
  let T := entry_threshold s in
  let leader_obi := get_imbalance (leader_book s) in
  (T <? Double.zero)%dbl = false ->
  ((T <? leader_obi)%dbl = true -> check_signals s = Buy) /\
  ((leader_obi <? - T)%dbl = true -> check_signals s = Sell) /\
  ((T <? leader_obi)%dbl = false -> (leader_obi <? - T)%dbl = false ->
     check_signals s = NoSignal) /\
  ((leader_obi == T)%dbl = true -> check_signals s = NoSignal) /\
  ((leader_obi == - T)%dbl = true -> check_signals s = NoSignal).
Proof.
  intros T obi HT. unfold check_signals. fold T. fold obi.
  repeat split.
  - intros ->. reflexivity.
  - intros Hlo. destruct (T <? obi)%dbl eqn:Hhi.
    + destruct (tests_exclusive T obi HT Hhi Hlo).
    + rewrite Hlo. reflexivity.
  - intros -> ->. reflexivity.
  - intros Heq. destruct (eqb_not_ltb _ _ Heq) as [_ ->].
    rewrite (eqb_threshold_not_below T obi HT Heq). reflexivity.
  - intros Heq. rewrite (eqb_opp_threshold_not_above T obi HT Heq).
    destruct (eqb_not_ltb _ _ Heq) as [-> _]. reflexivity.
Qed.

Lemma check_signals_thresholds_witness :
  check_signals (feed_leader (bid_then_ask 80 20) (new_PairStrategy threshold_0_2)) = Buy.
Proof.
  refine (proj1 (check_signals_thresholds
    (feed_leader (bid_then_ask 80 20) (new_PairStrategy threshold_0_2)) _) _);
    vm_compute; reflexivity.
Defined.

(** The claim C2 as stated fails for a negative threshold: with [T = -0.5] and
    a leader book holding a bid of [1] and an ask of [3] the imbalance is
    [-0.5], equal to [T], and the signal is [Sell], not [NoSignal]. *)
Lemma check_signals_boundary_negative_threshold :
  let s := feed_leader (bid_then_ask 1 3) (new_PairStrategy minus_half) in
  (get_imbalance (leader_book s) == entry_threshold s)%dbl = true /\
  check_signals s = Sell /\ check_signals s <> NoSignal.
Proof. vm_compute. repeat split; discriminate. Qed.

(** ** C3 *)

(** Calls that reach each side in the same order leave the same quantities
    behind. *)
Lemma same_side_order (cs1 cs2 : list Call) :
  filter c_is_bid cs1 = filter c_is_bid cs2 ->
  filter c_is_ask cs1 = filter c_is_ask cs2 ->
  let b1 := do_calls cs1 new_OrderBook in
  let b2 := do_calls cs2 new_OrderBook in
  total_bid_vol b1 = total_bid_vol b2 /\
  total_ask_vol b1 = total_ask_vol b2 /\
  get_imbalance b1 = get_imbalance b2.
Proof.
  intros Hb Ha b1 b2. apply get_imbalance_quantities; unfold b1, b2.
  - rewrite !bids_do_calls. now rewrite Hb.
  - rewrite !asks_do_calls. now rewrite Ha.
Qed.

(** C3 (amended): executing a permutation of the same calls stores, on each
    side, a permutation of the same orders; when the quantities are finite
    doubles and, on each side and in each of the two orders, every partial
    sum of the quantities is itself a double, so that no addition rounds, the
    two orders give the same total bid volume, the same total ask volume and
    the same imbalance. *)
Theorem do_calls_permutation (cs1 cs2 : list Call) :
  Permutation cs1 cs2 ->
  let b1 := do_calls cs1 new_OrderBook in
  let b2 := do_calls cs2 new_OrderBook in
  Permutation (bids b1) (bids b2) /\ Permutation (asks b1) (asks b2) /\
  (Forall (fun c => finite_double (c_quantity c) = true) cs1 ->
   adds_exactly (bids b1) = true -> adds_exactly (asks b1) = true ->
   adds_exactly (bids b2) = true -> adds_exactly (asks b2) = true ->
   total_bid_vol b1 = total_bid_vol b2 /\
   total_ask_vol b1 = total_ask_vol b2 /\
   get_imbalance b1 = get_imbalance b2).
Proof.
  intros HP b1 b2.
  destruct (stored_orders_permutation cs1 cs2 HP) as [Pb Pa]. fold b1 b2 in Pb, Pa.
  split; [exact Pb|]. split; [exact Pa|].
  intros HF Eb1 Ea1 Eb2 Ea2.
  assert (Fb : Forall (fun o => finite_double (quantity o) = true) (bids b1)).
  { unfold b1. rewrite bids_do_calls. cbn [new_OrderBook bids app].
    now apply Forall_side_finite. }
  assert (Fa : Forall (fun o => finite_double (quantity o) = true) (asks b1)).
  { unfold b1. rewrite asks_do_calls. cbn [new_OrderBook asks app].
    now apply Forall_side_finite. }
  assert (Tb : total_bid_vol b1 = total_bid_vol b2)
    by (unfold total_bid_vol; now apply fold_add_permutation).
  assert (Ta : total_ask_vol b1 = total_ask_vol b2)
    by (unfold total_ask_vol; now apply fold_add_permutation).
  split; [exact Tb|]. split; [exact Ta|].
  rewrite !get_imbalance_totals, Tb, Ta. reflexivity.
Qed.

Lemma do_calls_permutation_witness :
  bids (do_calls mixed_calls new_OrderBook)
    <> bids (do_calls (rev mixed_calls) new_OrderBook) /\
  total_bid_vol (do_calls mixed_calls new_OrderBook)
    = total_bid_vol (do_calls (rev mixed_calls) new_OrderBook) /\
  total_ask_vol (do_calls mixed_calls new_OrderBook)
    = total_ask_vol (do_calls (rev mixed_calls) new_OrderBook) /\
  get_imbalance (do_calls mixed_calls new_OrderBook)
    = get_imbalance (do_calls (rev mixed_calls) new_OrderBook).
Proof.
  split; [vm_compute; discriminate|].
  refine (proj2 (proj2 (do_calls_permutation mixed_calls (rev mixed_calls) _)) _ _ _ _ _);
    [apply Permutation_rev | repeat constructor | vm_compute; reflexivity ..].
Defined.

(** The claim C3 as stated fails: the bids [2^53], [1], [1] add up to [2^53]
    in this order and to [2^53 + 2] in the reverse order, and with an ask of
    [2^53] the imbalance is [0] in one order and [2^-53] in the other. *)
Lemma do_calls_order_matters :
  let cs := [mkCall (dbl 1) two_53 true; mkCall (dbl 1) (dbl 1) true;
             mkCall (dbl 1) (dbl 1) true; mkCall (dbl 1) two_53 false] in
  Permutation cs (rev cs) /\
  total_bid_vol (do_calls cs new_OrderBook)
    <> total_bid_vol (do_calls (rev cs) new_OrderBook) /\
  get_imbalance (do_calls cs new_OrderBook) = Double.zero /\
  get_imbalance (do_calls (rev cs) new_OrderBook) = Double.of_scaled 1 (-53) /\
  get_imbalance (do_calls cs new_OrderBook)
    <> get_imbalance (do_calls (rev cs) new_OrderBook).
Proof.
  intros cs. split; [apply Permutation_rev|].
  vm_compute. repeat split; discriminate.
Qed.

(** In that example no addition rounds in the reverse order, and one does in
    the first: additions that are exact in one of the two orders only do not
    make the totals agree. *)
Example exact_in_one_order_only :
  let cs := [mkCall (dbl 1) two_53 true; mkCall (dbl 1) (dbl 1) true;
             mkCall (dbl 1) (dbl 1) true; mkCall (dbl 1) two_53 false] in
  adds_exactly (bids (do_calls cs new_OrderBook)) = false /\
  adds_exactly (asks (do_calls cs new_OrderBook)) = true /\
  adds_exactly (bids (do_calls (rev cs) new_OrderBook)) = true /\
  adds_exactly (asks (do_calls (rev cs) new_OrderBook)) = true.
Proof. vm_compute. repeat split. Qed.

(** ** C4 *)

(** C4 (amended): after any sequence of [add_order] calls whose quantities
    are all non-negative binary64 numbers, [get_imbalance] lies in the closed
    interval from [-1] to [1] whenever the accumulated bid total and ask total
    are both finite; when one of the totals is [+infinity] the result is
    [NaN]. *)
Theorem get_imbalance_bounded (cs : list Call) :
  Forall (fun c => nonneg (c_quantity c) = true) cs ->
  let b := do_calls cs new_OrderBook in
  (Double.is_finite (total_bid_vol b) = true ->
   Double.is_finite (total_ask_vol b) = true ->
   in_unit_range (get_imbalance b) = true) /\
  (Double.is_finite (total_bid_vol b) = false \/
   Double.is_finite (total_ask_vol b) = false ->
   get_imbalance b = S754_nan).
Proof.
  intros H b. destruct (totals_nonneg cs H) as [Hb Ha]. fold b in Hb, Ha.
  rewrite get_imbalance_totals. split.
  - intros Fb Fa. now apply ratio_in_unit_range.
  - intros F. now apply ratio_nan.
Qed.

Lemma get_imbalance_bounded_witness :
  in_unit_range (get_imbalance (do_calls (bid_then_ask 80 20) new_OrderBook)) = true.
Proof.
  refine (proj1 (get_imbalance_bounded (bid_then_ask 80 20) _) _ _);
    [repeat constructor | reflexivity | reflexivity].
Defined.

(** The claim C4 as stated fails when a total overflows: two bids of
    [2^1023], each a finite non-negative double, add up to [+infinity], and
    [get_imbalance] is [inf / inf = NaN], which is in no interval. *)
Lemma get_imbalance_overflow :
  let cs := [mkCall (dbl 1) two_1023 true; mkCall (dbl 1) two_1023 true] in
  Forall (fun c => nonneg (c_quantity c) = true /\
                   Double.is_finite (c_quantity c) = true) cs /\
  total_bid_vol (do_calls cs new_OrderBook) = S754_infinity false /\
  get_imbalance (do_calls cs new_OrderBook) = S754_nan /\
  in_unit_range (get_imbalance (do_calls cs new_OrderBook)) = false.
Proof.
  intros cs. split; [|vm_compute; repeat split].
  repeat constructor.
Qed.

(** ** C5 *)

(** C5 (amended): after any history, [get_bid_count] and [get_ask_count] are
    the numbers of [add_order] calls with [isBid] true, respectively false,
    made since the last [clear] (or since construction), converted to [int];
    they are these numbers themselves as long as they do not exceed
    [INT_MAX]. *)
Theorem counts_since_clear (history recent : list Op) :
  existsb op_is_clear recent = false ->
  let cleared := do_ops (history ++ OpClear :: recent) new_OrderBook in
  let fresh := do_ops recent new_OrderBook in
  let n_bid := count op_is_bid recent in
  let n_ask := count op_is_ask recent in
  (get_bid_count cleared = to_int n_bid /\ get_ask_count cleared = to_int n_ask /\
   get_bid_count fresh = to_int n_bid /\ get_ask_count fresh = to_int n_ask) /\
  (n_bid <= int_max -> get_bid_count cleared = n_bid /\ get_bid_count fresh = n_bid) /\
  (n_ask <= int_max -> get_ask_count cleared = n_ask /\ get_ask_count fresh = n_ask).
Proof.
  intros H cleared fresh n_bid n_ask.
  assert (Ec : cleared = fresh) by apply do_ops_after_clear.
  destruct (sizes_do_ops recent new_OrderBook H) as [Hb Ha].
  change (size (bids new_OrderBook)) with 0 in Hb.
  change (size (asks new_OrderBook)) with 0 in Ha.
  assert (Eb : get_bid_count fresh = to_int n_bid).
  { unfold get_bid_count, fresh. rewrite Hb. reflexivity. }
  assert (Ea : get_ask_count fresh = to_int n_ask).
  { unfold get_ask_count, fresh. rewrite Ha. reflexivity. }
  rewrite Ec, Eb, Ea.
  pose proof (count_nonneg op_is_bid recent).
  pose proof (count_nonneg op_is_ask recent).
  repeat split; trivial; apply to_int_small; fold n_bid n_ask; lia.
Qed.

Lemma counts_since_clear_witness :
  get_bid_count
    (do_ops ([OpAdd (mkCall (dbl 1) (dbl 1) true)] ++
             OpClear :: [OpAdd (mkCall (dbl 1) (dbl 2) true);
                         OpAdd (mkCall (dbl 1) (dbl 3) false);
                         OpAdd (mkCall (dbl 1) (dbl 4) true)]) new_OrderBook) = 2.
Proof.
  refine (proj1 (proj1 (proj2 (counts_since_clear
    [OpAdd (mkCall (dbl 1) (dbl 1) true)]
    [OpAdd (mkCall (dbl 1) (dbl 2) true); OpAdd (mkCall (dbl 1) (dbl 3) false);
     OpAdd (mkCall (dbl 1) (dbl 4) true)] _)) _));
    [reflexivity | vm_compute; discriminate].
Defined.

Lemma bid_count_of_repeat (c : Call) (n : nat) :
  c_is_bid c = true ->
  existsb op_is_clear (repeat (OpAdd c) n) = false /\
  count op_is_bid (repeat (OpAdd c) n) = Z.of_nat n /\
  get_bid_count (do_ops (repeat (OpAdd c) n) new_OrderBook) = to_int (Z.of_nat n).
Proof.
  intros Hc.
  assert (Hx : existsb op_is_clear (repeat (OpAdd c) n) = false)
    by now apply existsb_repeat.
  assert (Hn : count op_is_bid (repeat (OpAdd c) n) = Z.of_nat n)
    by now apply count_repeat.
  repeat split; trivial.
  unfold get_bid_count.
  destruct (sizes_do_ops (repeat (OpAdd c) n) new_OrderBook Hx) as [-> _].
  rewrite Hn. reflexivity.
Qed.

Lemma bid_count_at_two_31 (n : nat) :
  Z.of_nat n = 2147483648 ->
  existsb op_is_clear (many_bids n) = false /\
  count op_is_bid (many_bids n) = 2147483648 /\
  get_bid_count (do_ops (many_bids n) new_OrderBook) = -2147483648 /\
  get_bid_count (do_ops (many_bids n) new_OrderBook) <> count op_is_bid (many_bids n).
Proof.
  intros E.
  destruct (bid_count_of_repeat (mkCall (dbl 1) (dbl 1) true) n eq_refl)
    as (Hx & Hn & Hg).
  fold (many_bids n) in Hx, Hn, Hg. rewrite E in Hn, Hg.
  change (to_int 2147483648) with (-2147483648) in Hg.
  rewrite Hg, Hn. repeat split; trivial. discriminate.
Qed.

Lemma two_31_nonneg : 0 <= 2147483648.
Proof. discriminate. Qed.

(** The claim C5 as stated fails once a side holds [2^31] orders: after
    [2^31] calls of [add_order] with [isBid] true on a new book the vector has
    [2147483648] elements and [get_bid_count] returns [-2147483648]. *)
Lemma get_bid_count_wraps :
  existsb op_is_clear (many_bids (Z.to_nat 2147483648)) = false /\
  count op_is_bid (many_bids (Z.to_nat 2147483648)) = 2147483648 /\
  get_bid_count (do_ops (many_bids (Z.to_nat 2147483648)) new_OrderBook)
    = -2147483648 /\
  get_bid_count (do_ops (many_bids (Z.to_nat 2147483648)) new_OrderBook)
    <> count op_is_bid (many_bids (Z.to_nat 2147483648)).
Proof.
  exact (bid_count_at_two_31 (Z.to_nat 2147483648)
           (Z2Nat.id 2147483648 two_31_nonneg)).
Qed.

(** ** C6 *)

(** C6: a call of [on_market_data] whose role is neither [0] (leader) nor
    [1] (follower) returns the strategy as it was: neither book changes. *)
Theorem on_market_data_unknown_role
    (symbol_type : Z) (p q : double) (is_bid : bool) (s : PairStrategy) :
  symbol_type <> 0 -> symbol_type <> 1 ->
  on_market_data symbol_type p q is_bid s = s /\
  leader_book (on_market_data symbol_type p q is_bid s) = leader_book s /\
  follower_book (on_market_data symbol_type p q is_bid s) = follower_book s.
Proof.
  intros H0 H1. unfold on_market_data.
  destruct (Z.eqb_spec symbol_type 0) as [E|_]; [contradiction|].
  destruct (Z.eqb_spec symbol_type 1) as [E|_]; [contradiction|].
  repeat split.
Qed.

Lemma on_market_data_unknown_role_witness :
  on_market_data 2 Double.one Double.one true (new_PairStrategy Double.one)
  = new_PairStrategy Double.one.
Proof.
  apply (on_market_data_unknown_role 2 Double.one Double.one true
           (new_PairStrategy Double.one)); lia.
Defined.

(** ** C7 *)

Lemma get_imbalance_empty : get_imbalance new_OrderBook = Double.zero.
Proof. reflexivity. Qed.

(** C7: whatever the book held, after [clear] both sequences are empty,
    [get_imbalance] (and [get_leader_imbalance] of a strategy whose leader
    book was just cleared) is exactly [0.0], and both counts are [0]. *)
Theorem clear_resets (b follower : OrderBook) (threshold : double) :
  bids (clear b) = [] /\ asks (clear b) = [] /\
  get_imbalance (clear b) = Double.zero /\
  get_leader_imbalance (mkPairStrategy (clear b) follower threshold) = Double.zero /\
  get_bid_count (clear b) = 0 /\ get_ask_count (clear b) = 0.
Proof. repeat split. Qed.

(** ** C8 *)

Lemma add_order_bid (p q : double) (b : OrderBook) :
  add_order p q true b = {| bids := bids b ++ [mkOrder p q]; asks := asks b |}.
Proof. reflexivity. Qed.

Lemma add_order_ask (p q : double) (b : OrderBook) :
  add_order p q false b = {| bids := bids b; asks := asks b ++ [mkOrder p q] |}.
Proof. reflexivity. Qed.

(** C8: [add_order price quantity isBid] appends exactly one order with the
    given price and quantity at the end of [bids] when [isBid] is true and at
    the end of [asks] otherwise; the other sequence, and every order already
    stored, stays as it was. *)
Theorem add_order_appends_one (p q : double) (is_bid : bool) (b : OrderBook) :
  let b' := add_order p q is_bid b in
  if is_bid
  then bids b' = bids b ++ [mkOrder p q] /\ asks b' = asks b
  else asks b' = asks b ++ [mkOrder p q] /\ bids b' = bids b.
Proof. destruct is_bid; simpl; split; reflexivity. Qed.

(** ** C9 *)

(** C9: two sequences of [add_order] calls that agree, call by call, on the
    quantity and on the side give books with equal imbalance (and equal
    totals), whatever the prices are. *)
Theorem get_imbalance_ignores_prices (cs1 cs2 : list Call) :
  map quantity_and_side cs1 = map quantity_and_side cs2 ->
  get_imbalance (do_calls cs1 new_OrderBook) = get_imbalance (do_calls cs2 new_OrderBook).
Proof.
  intros H. apply get_imbalance_quantities.
  - rewrite !bids_do_calls, (filter_bid_eqb cs1), (filter_bid_eqb cs2).
    cbn [new_OrderBook bids app].
    rewrite !quantities_of_side. now rewrite H.
  - rewrite !asks_do_calls, (filter_ask_eqb cs1), (filter_ask_eqb cs2).
    cbn [new_OrderBook asks app].
    rewrite !quantities_of_side. now rewrite H.
Qed.

Lemma get_imbalance_ignores_prices_witness :
  get_imbalance (do_calls [mkCall (dbl 100) (dbl 80) true; mkCall (dbl 101) (dbl 20) false]
                   new_OrderBook)
  = get_imbalance (do_calls [mkCall (dbl 7) (dbl 80) true; mkCall minus_half (dbl 20) false]
                     new_OrderBook).
Proof.
  apply (get_imbalance_ignores_prices
           [mkCall (dbl 100) (dbl 80) true; mkCall (dbl 101) (dbl 20) false]
           [mkCall (dbl 7) (dbl 80) true; mkCall minus_half (dbl 20) false]).
  reflexivity.
Defined.

(** ** C10 *)

(** C10: with a negative threshold [T] an imbalance can be above [T] and below
    [-T] at once, and [check_signals] is then [Buy], the first test of the
    two; an imbalance of zero is such a value. *)
Theorem check_signals_negative_threshold (s : PairStrategy) :
  let T := entry_threshold s in
  let leader_obi := get_imbalance (leader_book s) in
  (T <? Double.zero)%dbl = true ->
  ((T <? leader_obi)%dbl = true -> (leader_obi <? - T)%dbl = true ->
     check_signals s = Buy) /\
  ((leader_obi == Double.zero)%dbl = true ->
     (T <? leader_obi)%dbl = true /\ (leader_obi <? - T)%dbl = true /\
     check_signals s = Buy /\ check_signals s <> Sell /\
     check_signals s <> NoSignal).
Proof.
  intros T obi HT. unfold check_signals. fold T. fold obi. split.
  - intros -> _. reflexivity.
  - intros Hz. destruct (negative_threshold_zero T obi HT Hz) as [Hhi Hlo].
    rewrite Hhi. repeat split; auto; discriminate.
Qed.

Lemma check_signals_negative_threshold_witness :
  check_signals (new_PairStrategy minus_half) = Buy.
Proof.
  refine (proj1 (proj2 (proj2 (proj2 (check_signals_negative_threshold
    (new_PairStrategy minus_half) _) _)))); vm_compute; reflexivity.
Defined.

(** * Further properties of the code *)

(** ** Routing of market data *)

Lemma on_event_books (ev : Event) (s : PairStrategy) :
  leader_book (on_event s ev)
    = do_calls (calls_of_role 0 [ev]) (leader_book s) /\
  follower_book (on_event s ev)
    = do_calls (calls_of_role 1 [ev]) (follower_book s) /\
  entry_threshold (on_event s ev) = entry_threshold s.
Proof.
  unfold on_event, on_market_data, calls_of_role. cbn [filter].
  destruct (Z.eqb_spec (ev_symbol_type ev) 0) as [E0|N0].
  - rewrite E0. cbn. repeat split.
  - destruct (Z.eqb_spec (ev_symbol_type ev) 1) as [E1|N1]; cbn; repeat split.
Qed.

(** The orders that the calls of one role and one side become. *)
Lemma orders_of_role (role : Z) (p : Call -> bool) (evs : list Event) :
  map order_of_call (filter p (calls_of_role role evs))
  = map (fun ev => mkOrder (c_price (ev_call ev)) (c_quantity (ev_call ev)))
      (filter (fun ev => (ev_symbol_type ev =? role) && p (ev_call ev)) evs).
Proof.
  unfold calls_of_role. induction evs as [|ev evs IH]; [reflexivity|].
  cbn [filter]. destruct (ev_symbol_type ev =? role); cbn [andb map filter].
  - destruct (p (ev_call ev)); cbn [map]; rewrite IH; reflexivity.
  - exact IH.
Qed.

Lemma calls_of_role_cons (role : Z) (ev : Event) (evs : list Event) :
  calls_of_role role (ev :: evs) = calls_of_role role [ev] ++ calls_of_role role evs.
Proof.
  unfold calls_of_role. cbn [filter].
  destruct (ev_symbol_type ev =? role); reflexivity.
Qed.

(** The two books after a stream, as the calls made on them. *)
Lemma on_events_books (evs : list Event) (s : PairStrategy) :
  leader_book (on_events evs s) = do_calls (calls_of_role 0 evs) (leader_book s) /\
  follower_book (on_events evs s) = do_calls (calls_of_role 1 evs) (follower_book s) /\
  entry_threshold (on_events evs s) = entry_threshold s.
Proof.
  revert s. induction evs as [|ev evs IH]; intros s.
  - repeat split.
  - change (on_events (ev :: evs) s) with (on_events evs (on_event s ev)).
    destruct (IH (on_event s ev)) as (Hl & Hf & Ht).
    destruct (on_event_books ev s) as (Hl1 & Hf1 & Ht1).
    rewrite Hl, Hf, Ht, Hl1, Hf1, Ht1, !(calls_of_role_cons _ ev evs), !do_calls_app.
    repeat split.
Qed.

(** X1: after any stream of [on_market_data] calls the bids of the leader book
    are the bids it held, followed by one order, with the price and the
    quantity of the call, for each bid call with role [0], in the order of the
    calls; its asks likewise from the ask calls with role [0]; the bids and
    asks of the follower book likewise from the calls with role [1]; calls
    with any other role leave no order anywhere, and the threshold is the one
    given at construction. *)
Theorem on_events_routes (evs : list Event) (s : PairStrategy) :
  bids (leader_book (on_events evs s))
    = bids (leader_book s)
      ++ map (fun ev => mkOrder (c_price (ev_call ev)) (c_quantity (ev_call ev)))
           (filter (fun ev => (ev_symbol_type ev =? 0) && c_is_bid (ev_call ev)) evs) /\
  asks (leader_book (on_events evs s))
    = asks (leader_book s)
      ++ map (fun ev => mkOrder (c_price (ev_call ev)) (c_quantity (ev_call ev)))
           (filter (fun ev => (ev_symbol_type ev =? 0) && negb (c_is_bid (ev_call ev))) evs) /\
  bids (follower_book (on_events evs s))
    = bids (follower_book s)
      ++ map (fun ev => mkOrder (c_price (ev_call ev)) (c_quantity (ev_call ev)))
           (filter (fun ev => (ev_symbol_type ev =? 1) && c_is_bid (ev_call ev)) evs) /\
  asks (follower_book (on_events evs s))
    = asks (follower_book s)
      ++ map (fun ev => mkOrder (c_price (ev_call ev)) (c_quantity (ev_call ev)))
           (filter (fun ev => (ev_symbol_type ev =? 1) && negb (c_is_bid (ev_call ev))) evs) /\
  entry_threshold (on_events evs s) = entry_threshold s.
Proof.
  destruct (on_events_books evs s) as (Hl & Hf & Ht).
  rewrite Hl, Hf, !bids_do_calls, !asks_do_calls, !orders_of_role.
  repeat split. exact Ht.
Qed.

(** What [check_signals] reads after a stream. *)
Lemma on_events_leader (evs : list Event) (s : PairStrategy) :
  leader_book (on_events evs s) = do_calls (calls_of_role 0 evs) (leader_book s) /\
  entry_threshold (on_events evs s) = entry_threshold s.
Proof.
  revert s. induction evs as [|ev evs IH]; intros s.
  - split; reflexivity.
  - change (on_events (ev :: evs) s) with (on_events evs (on_event s ev)).
    destruct (IH (on_event s ev)) as (Hl & Ht).
    destruct (on_event_books ev s) as (Hl1 & _ & Ht1).
    rewrite Hl, Ht, Hl1, Ht1, (calls_of_role_cons 0 ev evs), do_calls_app.
    split; reflexivity.
Qed.

(** X2: the signal and the leader imbalance depend on the calls made for the
    leader only: two streams that agree on them, whatever else they contain
    for the follower or for unknown roles, give the same signal. *)
Theorem check_signals_reads_leader_only (evs1 evs2 : list Event) (s : PairStrategy) :
  calls_of_role 0 evs1 = calls_of_role 0 evs2 ->
  check_signals (on_events evs1 s) = check_signals (on_events evs2 s) /\
  get_leader_imbalance (on_events evs1 s) = get_leader_imbalance (on_events evs2 s).
Proof.
  intros H.
  destruct (on_events_leader evs1 s) as (Hl1 & Ht1).
  destruct (on_events_leader evs2 s) as (Hl2 & Ht2).
  unfold check_signals, get_leader_imbalance.
  rewrite Hl1, Hl2, Ht1, Ht2, H. split; reflexivity.
Qed.

Lemma check_signals_reads_leader_only_witness :
  check_signals
    (on_events [mkEvent 0 (mkCall (dbl 1) (dbl 80) true);
                mkEvent 1 (mkCall (dbl 1) (dbl 500) false);
                mkEvent 0 (mkCall (dbl 1) (dbl 20) false);
                mkEvent 7 (mkCall (dbl 1) (dbl 900) false)]
       (new_PairStrategy threshold_0_2))
  = check_signals
      (on_events [mkEvent 0 (mkCall (dbl 1) (dbl 80) true);
                  mkEvent 0 (mkCall (dbl 1) (dbl 20) false)]
         (new_PairStrategy threshold_0_2)).
Proof.
  refine (proj1 (check_signals_reads_leader_only _ _ _ _)). reflexivity.
Defined.

(** ** What [clear] forgets *)

(** X3: a book that was cleared cannot be told from a new one: whatever happened
    before a [clear], the imbalance and both counts are those of a new
    book that received only the operations made after it. *)
Theorem clear_forgets (history later : list Op) (b : OrderBook) :
  let cleared := do_ops (history ++ OpClear :: later) b in
  let fresh := do_ops later new_OrderBook in
  cleared = fresh /\
  get_imbalance cleared = get_imbalance fresh /\
  get_bid_count cleared = get_bid_count fresh /\
  get_ask_count cleared = get_ask_count fresh.
Proof.
  intros cleared fresh.
  assert (E : cleared = fresh) by apply do_ops_after_clear.
  rewrite E. repeat split.
Qed.

(** ** A quantity or threshold that is not a number *)

Lemma add_nan_r (x : double) : (x + S754_nan)%dbl = S754_nan.
Proof. destruct x as [[]|[]| |[] m e]; reflexivity. Qed.

Lemma add_nan_l (x : double) : (S754_nan + x)%dbl = S754_nan.
Proof. reflexivity. Qed.

Lemma fold_add_from_nan (os : list Order) :
  fold_left (fun vol o => (vol + quantity o)%dbl) os S754_nan = S754_nan.
Proof. induction os as [|o os IH]; [reflexivity|exact IH]. Qed.

Lemma fold_add_with_nan (os : list Order) (acc : double) :
  (exists o, In o os /\ quantity o = S754_nan) ->
  fold_left (fun vol o => (vol + quantity o)%dbl) os acc = S754_nan.
Proof.
  revert acc. induction os as [|o os IH]; intros acc [o' [Hin Hq]].
  - destruct Hin.
  - cbn [fold_left]. destruct Hin as [->|Hin].
    + rewrite Hq, add_nan_r. apply fold_add_from_nan.
    + apply IH. exists o'. split; assumption.
Qed.

Lemma ratio_of_nan (tb ta : double) :
  tb = S754_nan \/ ta = S754_nan ->
  (if ((tb + ta) == Double.zero)%dbl then Double.zero
   else ((tb - ta) / (tb + ta))%dbl) = S754_nan.
Proof.
  intros [-> | ->].
  - reflexivity.
  - rewrite add_nan_r. destruct tb as [[]|[]| |[] m e]; reflexivity.
Qed.

Lemma ltb_nan_l (x : double) : (S754_nan <? x)%dbl = false.
Proof. reflexivity. Qed.

Lemma ltb_nan_r (x : double) : (x <? S754_nan)%dbl = false.
Proof. destruct x as [[]|[]| |[] m e]; reflexivity. Qed.

(** X4: one order whose quantity is [NaN], on either side, makes the imbalance of
    the book [NaN] whatever else the book holds, and a strategy with that
    leader book gives no signal; so does a strategy whose threshold is
    [NaN]. *)
Theorem nan_silences (s : PairStrategy) :
  ((exists o, In o (bids (leader_book s) ++ asks (leader_book s)) /\
              quantity o = S754_nan) ->
   get_imbalance (leader_book s) = S754_nan /\ check_signals s = NoSignal) /\
  (entry_threshold s = S754_nan -> check_signals s = NoSignal).
Proof.
  split.
  - intros [o [Hin Hq]].
    assert (E : get_imbalance (leader_book s) = S754_nan).
    { rewrite get_imbalance_totals. apply ratio_of_nan.
      apply in_app_or in Hin. destruct Hin as [Hin|Hin]; [left|right];
        apply fold_add_with_nan; exists o; split; assumption. }
    split; [exact E|]. unfold check_signals. rewrite E, ltb_nan_r. reflexivity.
  - intros E. unfold check_signals. rewrite E.
    change (- S754_nan)%dbl with S754_nan. rewrite ltb_nan_r. reflexivity.
Qed.

Lemma nan_silences_witness :
  check_signals
    (feed_leader [mkCall (dbl 1) (dbl 80) true; mkCall (dbl 1) S754_nan false;
                  mkCall (dbl 1) (dbl 20) true]
       (new_PairStrategy threshold_0_2)) = NoSignal.
Proof.
  refine (proj2 (proj1 (nan_silences _) _)).
  exists (mkOrder (dbl 1) S754_nan). split; [|reflexivity].
  cbn. right. right. left. reflexivity.
Defined.

(** ** Order of doubles: opposites and chains *)

Lemma SFcompare_opp (x y : double) :
  SFcompare (SFopp x) (SFopp y) = SFcompare y x.
Proof.
  destruct x as [[]|[]| |[] mx ex], y as [[]|[]| |[] my ey]; cbn; try reflexivity;
    rewrite (Z.compare_antisym ex ey);
    destruct (ex ?= ey); cbn; try reflexivity;
    change (Pos.compare_cont Eq my mx) with (Pos.compare my mx);
    change (Pos.compare_cont Eq mx my) with (Pos.compare mx my);
    rewrite (Pos.compare_antisym mx my);
    destruct (Pos.compare mx my); reflexivity.
Qed.

Lemma opp_involutive (x : double) : (- - x)%dbl = x.
Proof. destruct x as [[]|[]| |[] m e]; reflexivity. Qed.

Lemma ltb_opp (x y : double) : (- x <? - y)%dbl = (y <? x)%dbl.
Proof. unfold Double.ltb, Double.opp, SFltb. now rewrite SFcompare_opp. Qed.

Lemma leb_opp (x y : double) : (- x <=? - y)%dbl = (y <=? x)%dbl.
Proof. unfold Double.leb, Double.opp, SFleb. now rewrite SFcompare_opp. Qed.

(** [x <= y] and [y <= z] exclude [z < x]. *)
Lemma leb_trans_not_ltb (x y z : double) :
  (x <=? y)%dbl = true -> (y <=? z)%dbl = true -> (z <? x)%dbl = false.
Proof.
  unfold Double.leb, Double.ltb, SFleb, SFltb.
  destruct x as [[]|[]| |[] mx ex], y as [[]|[]| |[] my ey], z as [[]|[]| |[] mz ez];
    cbn; try discriminate; try reflexivity;
    change (Pos.compare_cont Eq) with Pos.compare;
    repeat match goal with
    | |- context [Z.compare ?a ?b] => destruct (Z.compare_spec a b)
    | |- context [Pos.compare ?a ?b] => destruct (Pos.compare_spec a b)
    end; cbn; try discriminate; try reflexivity; intros; exfalso; lia.
Qed.

(** ** A threshold of one or more *)

Lemma feed_leader_books (cs : list Call) (s : PairStrategy) :
  leader_book (feed_leader cs s) = do_calls cs (leader_book s) /\
  follower_book (feed_leader cs s) = follower_book s /\
  entry_threshold (feed_leader cs s) = entry_threshold s.
Proof.
  revert s. induction cs as [|c cs IH]; intros s.
  - repeat split.
  - change (feed_leader (c :: cs) s)
      with (feed_leader cs (on_market_data 0 (c_price c) (c_quantity c) (c_is_bid c) s)).
    destruct (IH (on_market_data 0 (c_price c) (c_quantity c) (c_is_bid c) s))
      as (Hl & Hf & Ht).
    rewrite Hl, Hf, Ht. repeat split.
Qed.

(** The imbalance of non-negative quantities is in the unit range or [NaN]. *)
Lemma imbalance_range_or_nan (cs : list Call) :
  Forall (fun c => nonneg (c_quantity c) = true) cs ->
  in_unit_range (get_imbalance (do_calls cs new_OrderBook)) = true \/
  get_imbalance (do_calls cs new_OrderBook) = S754_nan.
Proof.
  intros H. destruct (totals_nonneg cs H) as [Hb Ha].
  rewrite get_imbalance_totals.
  destruct (Double.is_finite (total_bid_vol (do_calls cs new_OrderBook))) eqn:Fb;
    [destruct (Double.is_finite (total_ask_vol (do_calls cs new_OrderBook))) eqn:Fa|].
  - left. now apply ratio_in_unit_range.
  - right. apply ratio_nan; auto.
  - right. apply ratio_nan; auto.
Qed.

(** X5: with non-negative quantities a threshold of [1.0] or more never gives a
    signal: the imbalance cannot exceed [1.0] in magnitude. *)
Theorem threshold_of_one_never_signals (cs : list Call) (T : double) :
  Forall (fun c => nonneg (c_quantity c) = true) cs ->
  (Double.one <=? T)%dbl = true ->
  check_signals (feed_leader cs (new_PairStrategy T)) = NoSignal.
Proof.
  intros H HT.
  destruct (feed_leader_books cs (new_PairStrategy T)) as (Hl & _ & Ht).
  unfold check_signals. rewrite Hl, Ht. cbn [new_PairStrategy leader_book entry_threshold].
  destruct (imbalance_range_or_nan cs H) as [Hr|Hn]; [|rewrite Hn].
  - unfold in_unit_range in Hr. apply andb_true_iff in Hr. destruct Hr as [Hlo Hhi].
    rewrite (leb_trans_not_ltb _ _ _ Hhi HT).
    assert (HT' : (- T <=? - Double.one)%dbl = true) by (rewrite leb_opp; exact HT).
    rewrite (leb_trans_not_ltb _ _ _ HT' Hlo). reflexivity.
  - rewrite ltb_nan_r. reflexivity.
Qed.

Lemma threshold_of_one_never_signals_witness :
  check_signals (feed_leader (bid_then_ask 80 0) (new_PairStrategy Double.one)) = NoSignal.
Proof.
  apply (threshold_of_one_never_signals (bid_then_ask 80 0) Double.one);
    [repeat constructor | reflexivity].
Defined.

(** ** A number divided by itself *)

Section Self_division.

Variables prec emax : Z.
Hypothesis prec_pos : 0 < prec.
Hypothesis prec_lt_emax : prec < emax.

Local Abbreviation emin := (SpecFloat.emin prec emax).
Local Abbreviation fexp := (SpecFloat.fexp prec emax).

(** The quotient of a finite number by itself is exactly one, up to the sign. *)
Lemma SFdiv_self (s1 s2 : bool) (m : positive) (e : Z) :
  SFdiv prec emax (S754_finite s1 m e) (S754_finite s2 m e)
  = S754_finite (xorb s1 s2) (one_mantissa prec) (1 - prec).
Proof.
  cbn [SFdiv]. rewrite SFdiv_core_binary_eq by lia. cbv zeta.
  replace (Zdigits2 (Z.pos m) + e - (Zdigits2 (Z.pos m) + e)) with 0 by lia.
  replace (e - e) with 0 by lia.
  set (e' := Z.min (fexp 0) 0).
  assert (He' : e' <= 0) by (unfold e'; lia).
  assert (Hfe : e' <= fexp 0) by (unfold e'; lia).
  replace (0 - e') with (- e') by lia.
  pose proof (pow2_pos (- e') ltac:(lia)) as Hp.
  rewrite (Z.mul_comm (Z.pos m)), Z.div_mul, Z.mod_mul by lia.
  set (c := Z.min emin e').
  assert (Hc : c <= emin) by (unfold c; lia).
  assert (Hce : c <= e') by (unfold c; lia).
  assert (Hd : Zdigits2 (2 ^ (- e')) = - e' + 1).
  { apply Zdigits2_unique; [lia|]. replace (- e' + 1 - 1) with (- e') by lia.
    split; [lia|]. apply pow2_lt. lia. }
  assert (Hpre : e' <= fexp (Zdigits2 (2 ^ (- e')) + e')).
  { rewrite Hd. pose proof (fexp_mono prec emax 0 (- e' + 1 + e') ltac:(lia)). lia. }
  assert (Hv : scaled c (2 ^ (- e')) e'
               = scaled c (Z.pos (one_mantissa prec)) (1 - prec)).
  { rewrite (one_scaled prec emax prec_pos prec_lt_emax c Hc). unfold scaled.
    rewrite <- pow2_add by lia. f_equal. lia. }
  pose proof (one_bounded prec emax prec_pos prec_lt_emax) as Hone.
  pose proof (binary_round_aux_upper prec emax prec_pos c Hc (xorb s1 s2)
                (2 ^ (- e')) e' (new_location (Z.pos m) 0)
                (one_mantissa prec) (1 - prec) ltac:(lia) Hce Hpre Hone ltac:(lia)) as U.
  rewrite new_location_inexact in U. specialize (U ltac:(discriminate)).
  pose proof (binary_round_aux_lower prec emax prec_pos c Hc (xorb s1 s2)
                (2 ^ (- e')) e' (new_location (Z.pos m) 0)
                (one_mantissa prec) (1 - prec) ltac:(lia) Hce Hpre Hone ltac:(lia)) as L.
  destruct (binary_round_aux prec emax (xorb s1 s2) (2 ^ (- e')) e'
              (new_location (Z.pos m) 0)) as [s'|s'| |s' m3 e3];
    try contradiction.
  destruct U as (-> & Hb3 & Hu). destruct L as (_ & _ & Hl).
  apply bounded_iff in Hb3, Hone.
  destruct (canonical_unique prec emax c Hc m3 e3 (one_mantissa prec) (1 - prec)
              (proj1 Hb3) (proj1 Hone) ltac:(lia)) as [-> ->].
  reflexivity.
Qed.

End Self_division.

(** ** A book with orders on one side only *)

Lemma div_self_double (s1 s2 : bool) (m : positive) (e : Z) :
  (S754_finite s1 m e / S754_finite s2 m e)%dbl
  = if xorb s1 s2 then (- Double.one)%dbl else Double.one.
Proof.
  unfold Double.div.
  rewrite (SFdiv_self Double.prec Double.emax double_prec_pos double_prec_lt_emax).
  destruct (xorb s1 s2); reflexivity.
Qed.

Lemma ratio_bids_only (tb : double) :
  is_nonzero_finite tb = true ->
  (if ((tb + Double.zero) == Double.zero)%dbl then Double.zero
   else ((tb - Double.zero) / (tb + Double.zero))%dbl) = Double.one.
Proof.
  destruct tb as [s|s| |s m e]; try discriminate. intros _.
  change ((S754_finite s m e + Double.zero)%dbl) with (S754_finite s m e).
  change ((S754_finite s m e - Double.zero)%dbl) with (S754_finite s m e).
  replace ((S754_finite s m e == Double.zero)%dbl) with false by (destruct s; reflexivity).
  rewrite div_self_double. now destruct s.
Qed.

Lemma ratio_asks_only (ta : double) :
  is_nonzero_finite ta = true ->
  (if ((Double.zero + ta) == Double.zero)%dbl then Double.zero
   else ((Double.zero - ta) / (Double.zero + ta))%dbl) = (- Double.one)%dbl.
Proof.
  destruct ta as [s|s| |s m e]; try discriminate. intros _.
  change ((Double.zero + S754_finite s m e)%dbl) with (S754_finite s m e).
  change ((Double.zero - S754_finite s m e)%dbl) with (S754_finite (negb s) m e).
  replace ((S754_finite s m e == Double.zero)%dbl) with false by (destruct s; reflexivity).
  rewrite div_self_double. now destruct s.
Qed.

Lemma not_negative_not_below_minus_one (T : double) :
  (T <? Double.zero)%dbl = false -> (T <? - Double.one)%dbl = false.
Proof.
  destruct T as [[]|[]| |[] m e]; intros H; try reflexivity; discriminate H.
Qed.

(** X6: a book that holds orders on one side only, with a finite total that is
    not zero, has the extreme imbalance: exactly [1.0] with bids only and
    exactly [-1.0] with asks only, however large or small the quantities are.
    A strategy with such a leader book and a threshold [T], [0 <= T < 1],
    signals [Buy], respectively [Sell]. *)
Theorem one_sided_book (s : PairStrategy) :
  let b := leader_book s in
  let T := entry_threshold s in
  (asks b = [] -> is_nonzero_finite (total_bid_vol b) = true ->
   get_imbalance b = Double.one /\
   ((T <? Double.one)%dbl = true -> check_signals s = Buy)) /\
  (bids b = [] -> is_nonzero_finite (total_ask_vol b) = true ->
   get_imbalance b = (- Double.one)%dbl /\
   ((T <? Double.zero)%dbl = false -> (T <? Double.one)%dbl = true ->
    check_signals s = Sell)).
Proof.
  intros b T. split.
  - intros Ha Hb.
    assert (E : get_imbalance b = Double.one).
    { rewrite get_imbalance_totals. unfold total_ask_vol at 1 2 3. rewrite Ha.
      cbn [fold_left]. now apply ratio_bids_only. }
    split; [exact E|]. intros HT. unfold check_signals. fold b T. rewrite E, HT.
    reflexivity.
  - intros Hb Ha.
    assert (E : get_imbalance b = (- Double.one)%dbl).
    { rewrite get_imbalance_totals. unfold total_bid_vol at 1 2 3. rewrite Hb.
      cbn [fold_left]. now apply ratio_asks_only. }
    split; [exact E|]. intros HT0 HT1. unfold check_signals. fold b T.
    rewrite E, (not_negative_not_below_minus_one T HT0), ltb_opp, HT1. reflexivity.
Qed.

Lemma one_sided_book_witness :
  get_imbalance
    (leader_book (feed_leader [mkCall (dbl 1) two_1023 true; mkCall (dbl 1) (dbl 3) true]
                    (new_PairStrategy threshold_0_2))) = Double.one.
Proof.
  refine (proj1 (proj1 (one_sided_book _) _ _)); reflexivity.
Defined.

(** ** Exchanging the two sides *)

Section Mirror.

Variables prec emax : Z.

Lemma binary_round_aux_opp (s : bool) (m e : Z) (l : location) :
  binary_round_aux prec emax (negb s) m e l = SFopp (binary_round_aux prec emax s m e l).
Proof.
  unfold binary_round_aux.
  destruct (shr_fexp prec emax m e l) as [mrs1 e1].
  destruct (shr_fexp prec emax _ e1 loc_Exact) as [mrs2 e2].
  destruct (shr_m mrs2); [reflexivity| |reflexivity].
  destruct (e2 <=? emax - prec); reflexivity.
Qed.

Lemma binary_round_opp (s : bool) (m : positive) (e : Z) :
  binary_round prec emax (negb s) m e = SFopp (binary_round prec emax s m e).
Proof.
  unfold binary_round.
  destruct (shl_align m e _) as [mz ez]. apply binary_round_aux_opp.
Qed.

Lemma binary_normalize_opp (z e : Z) :
  binary_normalize prec emax (- z) e false
  = if z =? 0 then S754_zero false else SFopp (binary_normalize prec emax z e false).
Proof.
  destruct z as [|p|p]; cbn [Z.opp Z.eqb binary_normalize].
  - reflexivity.
  - apply (binary_round_opp false).
  - rewrite (binary_round_opp false p e : binary_round prec emax true p e = _).
    symmetry. exact (opp_involutive (binary_round prec emax false p e)).
Qed.

Lemma SFadd_comm (x y : double) : SFadd prec emax x y = SFadd prec emax y x.
Proof.
  destruct x as [[]|[]| |sx mx ex], y as [[]|[]| |sy my ey]; try reflexivity.
  cbn [SFadd]. rewrite (Z.min_comm ey ex). f_equal. apply Z.add_comm.
Qed.

Lemma SFsub_swap (x y : double) :
  SFsub prec emax y x = SFopp (SFsub prec emax x y) \/
  (is_zero (SFsub prec emax y x) = true /\ is_zero (SFsub prec emax x y) = true).
Proof.
  destruct x as [sx|sx| |sx mx ex], y as [sy|sy| |sy my ey];
    try (destruct sx, sy; cbn; auto; fail);
    try (destruct sx; cbn; auto; fail);
    try (destruct sy; cbn; auto; fail); try (cbn; auto; fail).
  cbn [SFsub]. rewrite (Z.min_comm ey ex).
  set (ez := Z.min ex ey).
  set (A := cond_Zopp sx (Z.pos (fst (shl_align mx ex ez)))).
  set (B := cond_Zopp sy (Z.pos (fst (shl_align my ey ez)))).
  replace (B - A) with (- (A - B)) by lia.
  rewrite binary_normalize_opp.
  destruct (Z.eqb_spec (A - B) 0) as [E|N].
  - right. rewrite E. split; reflexivity.
  - left. reflexivity.
Qed.

Lemma SFdiv_opp_l (d t : double) :
  SFdiv prec emax (SFopp d) t = SFopp (SFdiv prec emax d t).
Proof.
  destruct d as [sd|sd| |sd md ed], t as [st|st| |st mt et]; cbn [SFdiv SFopp];
    try reflexivity; try (destruct sd, st; reflexivity).
  destruct (SFdiv_core_binary prec emax (Z.pos md) ed (Z.pos mt) et) as [[mz ez] lz].
  rewrite <- binary_round_aux_opp. f_equal. destruct sd, st; reflexivity.
Qed.

Lemma SFdiv_zeros (d d' t : double) :
  is_zero d' = true -> is_zero d = true ->
  SFdiv prec emax d' t = SFopp (SFdiv prec emax d t) \/
  (is_zero (SFdiv prec emax d' t) = true /\ is_zero (SFdiv prec emax d t) = true).
Proof.
  destruct d as [sd|sd| |sd md ed]; try discriminate.
  destruct d' as [sd'|sd'| |sd' md' ed']; try discriminate. intros _ _.
  destruct t as [st|st| |st mt et]; cbn; auto.
Qed.

End Mirror.

Lemma imbalance_of_swap (tb ta : double) :
  opposite (imbalance_of ta tb) (imbalance_of tb ta).
Proof.
  unfold opposite, imbalance_of, Double.add, Double.sub, Double.div, Double.opp.
  rewrite (SFadd_comm Double.prec Double.emax ta tb).
  destruct (SFadd Double.prec Double.emax tb ta == Double.zero)%dbl.
  - right. split; reflexivity.
  - destruct (SFsub_swap Double.prec Double.emax tb ta) as [E|[Z1 Z2]].
    + left. rewrite E. apply SFdiv_opp_l.
    + now apply SFdiv_zeros.
Qed.

Lemma ltb_zero_any (T : double) (s : bool) :
  (T <? S754_zero s)%dbl = (T <? Double.zero)%dbl /\
  (S754_zero s <? T)%dbl = (Double.zero <? T)%dbl.
Proof. destruct T as [[]|[]| |[] m e], s; split; reflexivity. Qed.

Lemma not_negative_opp_not_positive (T : double) :
  (T <? Double.zero)%dbl = false -> (Double.zero <? - T)%dbl = false.
Proof.
  destruct T as [[]|[]| |[] m e]; intros H; try reflexivity; discriminate H.
Qed.

Lemma signal_of_opposite (T x y : double) :
  (T <? Double.zero)%dbl = false -> opposite x y ->
  signal_of T x = - signal_of T y.
Proof.
  intros HT [->|[Zx Zy]]; unfold signal_of.
  - replace (T <? - y)%dbl with (y <? - T)%dbl
      by (rewrite <- (opp_involutive T) at 2; symmetry; apply ltb_opp).
    rewrite ltb_opp.
    destruct (T <? y)%dbl eqn:Hhi, (y <? - T)%dbl eqn:Hlo; try reflexivity.
    destruct (tests_exclusive T y HT Hhi Hlo).
  - destruct x as [sx|sx| |sx mx ex]; try discriminate.
    destruct y as [sy|sy| |sy my ey]; try discriminate.
    rewrite (proj1 (ltb_zero_any T sx)), (proj1 (ltb_zero_any T sy)), HT.
    rewrite (proj2 (ltb_zero_any (Double.opp T) sx)), (proj2 (ltb_zero_any (Double.opp T) sy)).
    rewrite (not_negative_opp_not_positive T HT). reflexivity.
Qed.

Lemma get_imbalance_of (b : OrderBook) :
  get_imbalance b = imbalance_of (total_bid_vol b) (total_ask_vol b).
Proof. reflexivity. Qed.

Lemma check_signals_of (s : PairStrategy) :
  check_signals s = signal_of (entry_threshold s) (get_imbalance (leader_book s)).
Proof. reflexivity. Qed.

Lemma orders_of_flipped (cs : list Call) :
  map order_of_call (filter c_is_bid (map flip_side cs))
    = map order_of_call (filter c_is_ask cs) /\
  map order_of_call (filter c_is_ask (map flip_side cs))
    = map order_of_call (filter c_is_bid cs).
Proof.
  induction cs as [|c cs [IHb IHa]]; [split; reflexivity|].
  cbn [map filter]. unfold c_is_ask in *. cbn [flip_side c_is_bid].
  destruct (c_is_bid c); cbn [negb map]; rewrite ?IHb, ?IHa; split; reflexivity.
Qed.

Lemma totals_of_flipped (cs : list Call) :
  total_bid_vol (do_calls (map flip_side cs) new_OrderBook)
    = total_ask_vol (do_calls cs new_OrderBook) /\
  total_ask_vol (do_calls (map flip_side cs) new_OrderBook)
    = total_bid_vol (do_calls cs new_OrderBook).
Proof.
  destruct (orders_of_flipped cs) as [Hb Ha].
  unfold total_bid_vol, total_ask_vol.
  rewrite !bids_do_calls, !asks_do_calls, Hb, Ha. split; reflexivity.
Qed.

(** X7: sending every order of the leader to the other side of the book turns
    the imbalance into its opposite (a zero stays a zero) and, when the
    threshold is not negative, [Buy] into [Sell] and [Sell] into [Buy]. *)
Theorem flipping_sides_negates_signal (cs : list Call) (T : double) :
  (T <? Double.zero)%dbl = false ->
  opposite (get_imbalance (do_calls (map flip_side cs) new_OrderBook))
           (get_imbalance (do_calls cs new_OrderBook)) /\
  check_signals (feed_leader (map flip_side cs) (new_PairStrategy T))
  = - check_signals (feed_leader cs (new_PairStrategy T)).
Proof.
  intros HT.
  assert (Hopp : opposite (get_imbalance (do_calls (map flip_side cs) new_OrderBook))
                          (get_imbalance (do_calls cs new_OrderBook))).
  { rewrite !get_imbalance_of. destruct (totals_of_flipped cs) as [-> ->].
    apply imbalance_of_swap. }
  split; [exact Hopp|].
  rewrite !check_signals_of.
  destruct (feed_leader_books (map flip_side cs) (new_PairStrategy T)) as (-> & _ & ->).
  destruct (feed_leader_books cs (new_PairStrategy T)) as (-> & _ & ->).
  cbn [new_PairStrategy leader_book entry_threshold].
  now apply signal_of_opposite.
Qed.

Lemma flipping_sides_negates_signal_witness :
  check_signals (feed_leader (map flip_side (bid_then_ask 80 20))
                   (new_PairStrategy threshold_0_2))
  = - check_signals (feed_leader (bid_then_ask 80 20) (new_PairStrategy threshold_0_2)).
Proof.
  refine (proj2 (flipping_sides_negates_signal (bid_then_ask 80 20) threshold_0_2 _)).
  reflexivity.
Defined.

(** ** The sign of the imbalance *)

Section Signs.

Variables prec emax : Z.
Hypothesis prec_pos : 0 < prec.
Variable c : Z.
Hypothesis c_small : c <= SpecFloat.emin prec emax.

Lemma SFltb_positive (m1 : positive) (e1 : Z) (m2 : positive) (e2 : Z) :
  SpecFloat.fexp prec emax (Zdigits2 (Z.pos m1) + e1) = e1 ->
  SpecFloat.fexp prec emax (Zdigits2 (Z.pos m2) + e2) = e2 ->
  scaled c (Z.pos m1) e1 < scaled c (Z.pos m2) e2 ->
  SFltb (S754_finite false m1 e1) (S754_finite false m2 e2) = true.
Proof.
  intros H1 H2 Hlt.
  pose proof (canonical_exponent_le prec emax c c_small m1 e1 m2 e2 H1 H2 ltac:(lia)) as He.
  destruct (canonical_digits prec emax m1 e1 H1) as (Hmin & _).
  unfold SFltb, SFcompare.
  destruct (Z.compare_spec e1 e2) as [E|E|E]; try reflexivity; try lia.
  subst e2. unfold scaled in Hlt.
  apply Z.mul_lt_mono_pos_r in Hlt; [|apply pow2_pos; lia].
  change (Pos.compare_cont Eq m1 m2) with (Pos.compare m1 m2).
  destruct (Pos.compare_spec m1 m2); try reflexivity; lia.
Qed.

(** A difference of two positive numbers that comes out positive had the
    larger number first. *)
Lemma SFsub_positive_sign (mx : positive) (ex : Z) (my : positive) (ey : Z)
    (m3 : positive) (e3 : Z) :
  bounded prec emax mx ex = true -> bounded prec emax my ey = true ->
  SFsub prec emax (S754_finite false mx ex) (S754_finite false my ey)
    = S754_finite false m3 e3 ->
  scaled c (Z.pos my) ey < scaled c (Z.pos mx) ex.
Proof.
  intros Hx Hy.
  pose proof (proj1 (bounded_iff prec emax mx ex) Hx) as [Hcx _].
  pose proof (proj1 (bounded_iff prec emax my ey) Hy) as [Hcy _].
  destruct (canonical_digits prec emax mx ex Hcx) as (Hex & _).
  destruct (canonical_digits prec emax my ey Hcy) as (Hey & _).
  destruct (aligned_values c mx ex my ey) as [Vx Vy]; try lia.
  cbn [SFsub cond_Zopp]. cbv zeta in Vx, Vy.
  set (ez := Z.min ex ey) in *.
  set (ax := fst (shl_align mx ex ez)) in *.
  set (ay := fst (shl_align my ey ez)) in *.
  pose proof (pow2_pos (ez - c) ltac:(lia)) as Hu.
  destruct (Z.pos ax - Z.pos ay) as [|p|p] eqn:E; cbn [binary_normalize]; intros R.
  - discriminate R.
  - rewrite <- Vx, <- Vy. unfold scaled. apply Z.mul_lt_mono_pos_r; lia.
  - exfalso.
    assert (Vp : scaled c (Z.pos p) ez <= scaled c (Z.pos my) ey).
    { rewrite <- Vy. replace (Z.pos ay) with (Z.pos p + Z.pos ax) by lia.
      rewrite scaled_add. pose proof (scaled_pos c (Z.pos ax) ez ltac:(lia) ltac:(lia)).
      lia. }
    pose proof (binary_round_upper prec emax prec_pos c c_small true p ez my ey
                  ltac:(lia) Hy Vp) as U.
    rewrite R in U. destruct U as [U _]. discriminate U.
Qed.

End Signs.

Lemma binary_round_aux_sign (prec emax : Z) (s : bool) (m e : Z) (l : location) :
  match binary_round_aux prec emax s m e l with
  | S754_zero s' | S754_infinity s' | S754_finite s' _ _ => s' = s
  | S754_nan => True
  end.
Proof.
  unfold binary_round_aux.
  destruct (shr_fexp prec emax m e l) as [mrs1 e1].
  destruct (shr_fexp prec emax _ e1 loc_Exact) as [mrs2 e2].
  destruct (shr_m mrs2); [reflexivity| |exact I].
  destruct (e2 <=? emax - prec); reflexivity.
Qed.

Lemma SFdiv_sign (prec emax : Z) (sd : bool) (md : positive) (ed : Z)
    (st : bool) (mt : positive) (et : Z) :
  match SFdiv prec emax (S754_finite sd md ed) (S754_finite st mt et) with
  | S754_zero s' | S754_infinity s' | S754_finite s' _ _ => s' = xorb sd st
  | S754_nan => True
  end.
Proof.
  cbn [SFdiv].
  destruct (SFdiv_core_binary prec emax (Z.pos md) ed (Z.pos mt) et) as [[mz ez] lz].
  apply binary_round_aux_sign.
Qed.

Lemma positive_of_above (T x : double) :
  (T <? Double.zero)%dbl = false -> (T <? x)%dbl = true -> is_positive x = true.
Proof.
  destruct T as [[]|[]| |[] mT eT], x as [[]|[]| |[] mx ex]; intros H1 H2;
    try reflexivity; try discriminate H1; discriminate H2.
Qed.

(** With non-negative totals a positive imbalance means that the bid total
    is the larger one. *)
Lemma imbalance_of_positive (tb ta : double) :
  nonneg tb = true -> nonneg ta = true ->
  is_positive (imbalance_of tb ta) = true -> (ta <? tb)%dbl = true.
Proof.
  intros Hb Ha. 
  destruct (Double.is_finite tb) eqn:Fb; [destruct (Double.is_finite ta) eqn:Fa|];
    try (unfold imbalance_of; cbv zeta; rewrite (ratio_nan tb ta Hb Ha) by auto;
         discriminate).
  apply nonneg_cases in Hb, Ha.
  destruct tb as [sb|sb| |sb mb eb], ta as [sa|sa| |sa ma ea];
    try discriminate; try contradiction.
  - destruct sb, sa; discriminate.
  - destruct Ha as [-> Ha]. unfold imbalance_of. cbv zeta.
    change ((S754_zero sb + S754_finite false ma ea)%dbl) with (S754_finite false ma ea).
    change ((S754_zero sb - S754_finite false ma ea)%dbl) with (S754_finite true ma ea).
    change ((S754_finite false ma ea == Double.zero)%dbl) with false.
    cbv iota. rewrite div_self_double. discriminate.
  - destruct Hb as [-> Hb]. intros _. now destruct sa.
  - destruct Hb as [-> Hb]. destruct Ha as [-> Ha].
    pose proof (SFadd_positive Double.prec Double.emax double_prec_pos _ double_unit
                  mb eb ma ea Hb Ha) as HA.
    pose proof (SFsub_positive Double.prec Double.emax double_prec_pos _ double_unit
                  mb eb ma ea Hb Ha) as HS.
    pose proof (SFsub_positive_sign Double.prec Double.emax double_prec_pos _ double_unit
                  mb eb ma ea) as HP.
    unfold imbalance_of, Double.add, Double.sub, Double.div. cbv zeta.
    destruct (SFadd Double.prec Double.emax (S754_finite false mb eb)
                (S754_finite false ma ea)) as [st|st| |st mt et]; try contradiction.
    + subst st. change ((S754_infinity false == Double.zero)%dbl) with false. cbv iota.
      destruct (SFsub Double.prec Double.emax (S754_finite false mb eb)
                  (S754_finite false ma ea)) as [sd|sd| |sd md ed]; try contradiction;
        destruct sd; discriminate.
    + destruct HA as (-> & Hbt & _).
      change ((S754_finite false mt et == Double.zero)%dbl) with false. cbv iota.
      destruct (SFsub Double.prec Double.emax (S754_finite false mb eb)
                  (S754_finite false ma ea)) as [sd|sd| |sd md ed]; try contradiction.
      * destruct sd; discriminate.
      * pose proof (SFdiv_sign Double.prec Double.emax sd md ed false mt et) as Hsign.
        destruct (SFdiv Double.prec Double.emax (S754_finite sd md ed)
                    (S754_finite false mt et)) as [s'|s'| |s' m' e']; try discriminate;
          rewrite xorb_false_r in Hsign; subst s'; destruct sd; try discriminate;
          intros _;
          specialize (HP md ed Hb Ha eq_refl);
          apply bounded_iff in Hb, Ha;
          apply (SFltb_positive Double.prec Double.emax _ double_unit);
          tauto.
Qed.

Lemma signal_of_cases (T x : double) :
  (signal_of T x = Buy -> (T <? x)%dbl = true) /\
  (signal_of T x = Sell -> (x <? - T)%dbl = true).
Proof.
  unfold signal_of, Buy, Sell.
  destruct (T <? x)%dbl, (x <? - T)%dbl; split; intros H; try reflexivity; discriminate H.
Qed.

(** X8: with non-negative quantities and a threshold that is not negative the
    signal points to the heavier side: [Buy] is given only when the bid total
    exceeds the ask total, [Sell] only when the ask total exceeds the bid
    total. *)
Theorem signal_follows_heavier_side (cs : list Call) (T : double) :
  Forall (fun c => nonneg (c_quantity c) = true) cs ->
  (T <? Double.zero)%dbl = false ->
  let b := do_calls cs new_OrderBook in
  let s := feed_leader cs (new_PairStrategy T) in
  (check_signals s = Buy -> (total_ask_vol b <? total_bid_vol b)%dbl = true) /\
  (check_signals s = Sell -> (total_bid_vol b <? total_ask_vol b)%dbl = true).
Proof.
  intros H HT b s. destruct (totals_nonneg cs H) as [Hb Ha]. fold b in Hb, Ha.
  assert (Es : check_signals s = signal_of T (imbalance_of (total_bid_vol b) (total_ask_vol b))).
  { rewrite check_signals_of. unfold s.
    destruct (feed_leader_books cs (new_PairStrategy T)) as (-> & _ & ->).
    reflexivity. }
  rewrite Es.
  destruct (signal_of_cases T (imbalance_of (total_bid_vol b) (total_ask_vol b)))
    as [HBuy HSell].
  split; intros Hsig.
  - apply imbalance_of_positive; trivial.
    apply (positive_of_above T); auto.
  - apply imbalance_of_positive; trivial.
    specialize (HSell Hsig).
    assert (Hp : is_positive (- imbalance_of (total_bid_vol b) (total_ask_vol b))%dbl = true).
    { apply (positive_of_above T); trivial.
      rewrite <- (opp_involutive T). rewrite ltb_opp. exact HSell. }
    destruct (imbalance_of_swap (total_bid_vol b) (total_ask_vol b)) as [->|[_ Hz]];
      [exact Hp|].
    destruct (imbalance_of (total_bid_vol b) (total_ask_vol b)); discriminate.
Qed.

Lemma signal_follows_heavier_side_witness :
  (total_ask_vol (do_calls (bid_then_ask 80 20) new_OrderBook)
   <? total_bid_vol (do_calls (bid_then_ask 80 20) new_OrderBook))%dbl = true.
Proof.
  refine (proj1 (signal_follows_heavier_side (bid_then_ask 80 20) threshold_0_2 _ _) _);
    [repeat constructor | reflexivity | reflexivity].
Defined.

(** ** Equal totals *)

Lemma imbalance_of_equal (x : double) :
  nonneg x = true -> Double.is_finite x = true -> imbalance_of x x = Double.zero.
Proof.
  intros Hx Fx. apply nonneg_cases in Hx.
  destruct x as [s|s| |s m e]; try discriminate; try contradiction.
  - destruct s; reflexivity.
  - destruct Hx as [-> Hx].
    pose proof (SFadd_positive Double.prec Double.emax double_prec_pos _ double_unit
                  m e m e Hx Hx) as HA.
    assert (Ed : (S754_finite false m e - S754_finite false m e)%dbl = S754_zero false).
    { unfold Double.sub. cbn [SFsub cond_Zopp]. rewrite Z.sub_diag. reflexivity. }
    unfold imbalance_of. cbv zeta. rewrite Ed. unfold Double.add.
    destruct (SFadd Double.prec Double.emax (S754_finite false m e) (S754_finite false m e))
      as [st|st| |st mt et]; try contradiction.
    + subst st. reflexivity.
    + destruct HA as (-> & _). reflexivity.
Qed.

(** X9: a book of non-negative quantities whose bid total and ask total are the
    same finite number has the imbalance [0.0] exactly, and every threshold
    that is not negative then gives no signal. *)
Theorem balanced_book_is_neutral (cs : list Call) (T : double) :
  Forall (fun c => nonneg (c_quantity c) = true) cs ->
  let b := do_calls cs new_OrderBook in
  total_bid_vol b = total_ask_vol b ->
  Double.is_finite (total_bid_vol b) = true ->
  get_imbalance b = Double.zero /\
  ((T <? Double.zero)%dbl = false ->
   check_signals (feed_leader cs (new_PairStrategy T)) = NoSignal).
Proof.
  intros H b E F. destruct (totals_nonneg cs H) as [Hb _]. fold b in Hb.
  assert (Ei : get_imbalance b = Double.zero).
  { rewrite get_imbalance_of, <- E. now apply imbalance_of_equal. }
  split; [exact Ei|]. intros HT.
  rewrite check_signals_of.
  destruct (feed_leader_books cs (new_PairStrategy T)) as (-> & _ & ->).
  cbn [new_PairStrategy leader_book entry_threshold]. fold b. rewrite Ei.
  unfold signal_of. rewrite HT, (not_negative_opp_not_positive T HT). reflexivity.
Qed.

Lemma balanced_book_is_neutral_witness :
  get_imbalance (do_calls (bid_then_ask 50 50) new_OrderBook) = Double.zero.
Proof.
  refine (proj1 (balanced_book_is_neutral (bid_then_ask 50 50) threshold_0_2 _ _ _));
    [repeat constructor | reflexivity | reflexivity].
Defined.

(** ** Overflow *)

(** X10: once a total of non-negative quantities has reached [+infinity], by an
    infinite quantity or by overflow of the running sum, the strategy gives no
    signal, whatever its threshold is. *)
Theorem overflow_silences (cs : list Call) (T : double) :
  Forall (fun c => nonneg (c_quantity c) = true) cs ->
  let b := do_calls cs new_OrderBook in
  Double.is_finite (total_bid_vol b) = false \/
  Double.is_finite (total_ask_vol b) = false ->
  check_signals (feed_leader cs (new_PairStrategy T)) = NoSignal.
Proof.
  intros H b F. destruct (totals_nonneg cs H) as [Hb Ha]. fold b in Hb, Ha.
  rewrite check_signals_of.
  destruct (feed_leader_books cs (new_PairStrategy T)) as (-> & _ & ->).
  cbn [new_PairStrategy leader_book entry_threshold]. fold b.
  rewrite get_imbalance_totals, (ratio_nan _ _ Hb Ha F).
  unfold signal_of. rewrite ltb_nan_r. reflexivity.
Qed.

Lemma overflow_silences_witness :
  check_signals
    (feed_leader [mkCall (dbl 1) two_1023 true; mkCall (dbl 1) two_1023 true]
       (new_PairStrategy threshold_0_2)) = NoSignal.
Proof.
  refine (overflow_silences
            [mkCall (dbl 1) two_1023 true; mkCall (dbl 1) two_1023 true]
            threshold_0_2 _ _);
    [repeat constructor | left; reflexivity].
Defined.

(** ** Lowering the threshold *)

Lemma leb_ltb_trans (x y z : double) :
  (x <=? y)%dbl = true -> (y <? z)%dbl = true -> (x <? z)%dbl = true.
Proof.
  unfold Double.leb, Double.ltb, SFleb, SFltb.
  destruct x as [[]|[]| |[] mx ex], y as [[]|[]| |[] my ey], z as [[]|[]| |[] mz ez];
    cbn; try discriminate; try reflexivity;
    change (Pos.compare_cont Eq) with Pos.compare;
    repeat match goal with
    | |- context [Z.compare ?a ?b] => destruct (Z.compare_spec a b)
    | |- context [Pos.compare ?a ?b] => destruct (Pos.compare_spec a b)
    end; cbn; try discriminate; try reflexivity; intros; exfalso; lia.
Qed.

Lemma ltb_leb_trans (x y z : double) :
  (x <? y)%dbl = true -> (y <=? z)%dbl = true -> (x <? z)%dbl = true.
Proof.
  unfold Double.leb, Double.ltb, SFleb, SFltb.
  destruct x as [[]|[]| |[] mx ex], y as [[]|[]| |[] my ey], z as [[]|[]| |[] mz ez];
    cbn; try discriminate; try reflexivity;
    change (Pos.compare_cont Eq) with Pos.compare;
    repeat match goal with
    | |- context [Z.compare ?a ?b] => destruct (Z.compare_spec a b)
    | |- context [Pos.compare ?a ?b] => destruct (Pos.compare_spec a b)
    end; cbn; try discriminate; try reflexivity; intros; exfalso; lia.
Qed.

(** X11: a lower threshold is at least as sensitive: on the same leader book, a
    strategy whose threshold [T1] is not negative and not above [T2] signals
    [Buy] whenever the strategy with [T2] does, and [Sell] whenever it does. *)
Theorem lower_threshold_keeps_signal (leader follower1 follower2 : OrderBook)
    (T1 T2 : double) :
  (T1 <? Double.zero)%dbl = false -> (T1 <=? T2)%dbl = true ->
  let s1 := mkPairStrategy leader follower1 T1 in
  let s2 := mkPairStrategy leader follower2 T2 in
  (check_signals s2 = Buy -> check_signals s1 = Buy) /\
  (check_signals s2 = Sell -> check_signals s1 = Sell).
Proof.
  intros H1 H12 s1 s2. rewrite !check_signals_of.
  cbn [s1 s2 leader_book entry_threshold].
  set (obi := get_imbalance leader).
  destruct (signal_of_cases T2 obi) as [HBuy HSell].
  split; intros Hsig.
  - specialize (HBuy Hsig). unfold signal_of.
    rewrite (leb_ltb_trans T1 T2 obi H12 HBuy). reflexivity.
  - specialize (HSell Hsig).
    assert (Hlo : (obi <? - T1)%dbl = true).
    { apply (ltb_leb_trans obi (- T2)%dbl); [exact HSell|]. rewrite leb_opp. exact H12. }
    unfold signal_of. rewrite Hlo.
    destruct (T1 <? obi)%dbl eqn:Hhi; [|reflexivity].
    destruct (tests_exclusive T1 obi H1 Hhi Hlo).
Qed.

Lemma lower_threshold_keeps_signal_witness :
  check_signals
    (mkPairStrategy (do_calls (bid_then_ask 80 20) new_OrderBook) new_OrderBook
       threshold_0_2) = Buy.
Proof.
  refine (proj1 (lower_threshold_keeps_signal
            (do_calls (bid_then_ask 80 20) new_OrderBook) new_OrderBook new_OrderBook
            threshold_0_2 (Double.of_scaled 1 (-1)) _ _) _); reflexivity.
Defined.

(** ** Orders of quantity zero *)

Lemma add_nonneg_not_minus_zero (x y : double) :
  nonneg x = true -> nonneg y = true -> x <> S754_zero true ->
  (x + y)%dbl <> S754_zero true.
Proof.
  intros Hx Hy Nx. apply nonneg_cases in Hx, Hy. unfold Double.add.
  destruct x as [sx|sx| |sx mx ex], y as [sy|sy| |sy my ey];
    nonneg_shapes; try (cbn; discriminate).
  - destruct sx, sy; cbn; try discriminate. contradiction.
  - pose proof (SFadd_positive Double.prec Double.emax double_prec_pos _ double_unit
                  mx ex my ey ltac:(assumption) ltac:(assumption)) as H.
    destruct (SFadd Double.prec Double.emax (S754_finite false mx ex)
                (S754_finite false my ey)); try contradiction; discriminate.
Qed.

Lemma fold_add_not_minus_zero (os : list Order) (acc : double) :
  Forall (fun o => nonneg (quantity o) = true) os ->
  nonneg acc = true -> acc <> S754_zero true ->
  fold_left (fun vol o => (vol + quantity o)%dbl) os acc <> S754_zero true.
Proof.
  intros H. revert acc. induction H as [|o os Ho _ IH]; intros acc Hacc Nacc.
  - exact Nacc.
  - cbn [fold_left]. apply IH.
    + now apply add_nonneg.
    + now apply add_nonneg_not_minus_zero.
Qed.

Lemma add_zero_r (x z : double) :
  nonneg x = true -> x <> S754_zero true -> is_zero z = true -> (x + z)%dbl = x.
Proof.
  intros Hx Nx Hz. apply nonneg_cases in Hx.
  destruct z as [sz|sz| |sz mz ez]; try discriminate.
  destruct x as [sx|sx| |sx mx ex]; nonneg_shapes; try reflexivity.
  destruct sx, sz; try reflexivity. contradiction.
Qed.

(** Inserting an order of quantity zero into a sequence of orders with
    non-negative quantities does not change the sum of the sequence. *)
Lemma fold_add_skip_zero (l1 l2 : list Order) (o : Order) :
  Forall (fun o => nonneg (quantity o) = true) l1 ->
  is_zero (quantity o) = true ->
  fold_left (fun vol o => (vol + quantity o)%dbl) (l1 ++ o :: l2) Double.zero
  = fold_left (fun vol o => (vol + quantity o)%dbl) (l1 ++ l2) Double.zero.
Proof.
  intros H1 Hz. rewrite !fold_left_app. cbn [fold_left]. f_equal.
  apply add_zero_r; trivial.
  - apply fold_add_nonneg; [exact H1|reflexivity].
  - apply fold_add_not_minus_zero; [exact H1|reflexivity|discriminate].
Qed.

Lemma Forall_side (p : Call -> bool) (cs : list Call) :
  Forall (fun c => nonneg (c_quantity c) = true) cs ->
  Forall (fun o => nonneg (quantity o) = true) (map order_of_call (filter p cs)).
Proof.
  intros H. apply Forall_map. apply Forall_forall. intros x Hx.
  apply filter_In in Hx. destruct Hx as [Hx _].
  exact (proj1 (Forall_forall _ _) H x Hx).
Qed.

(** X12: an [add_order] call with quantity [0.0] or [-0.0], made at any point
    among calls with non-negative quantities, is stored and counted but
    changes neither total and so leaves the imbalance as it would have been
    without it. *)
Theorem zero_quantity_is_neutral (cs1 cs2 : list Call) (c : Call) :
  Forall (fun c => nonneg (c_quantity c) = true) cs1 ->
  is_zero (c_quantity c) = true ->
  let b := do_calls (cs1 ++ c :: cs2) new_OrderBook in
  let b' := do_calls (cs1 ++ cs2) new_OrderBook in
  total_bid_vol b = total_bid_vol b' /\
  total_ask_vol b = total_ask_vol b' /\
  get_imbalance b = get_imbalance b' /\
  size (bids b) + size (asks b) = size (bids b') + size (asks b') + 1.
Proof.
  intros H1 Hz b b'.
  assert (Eb : total_bid_vol b = total_bid_vol b').
  { unfold total_bid_vol, b, b'. rewrite !bids_do_calls. cbn [new_OrderBook bids app].
    rewrite !filter_app, !map_app. cbn [filter].
    destruct (c_is_bid c); [|reflexivity].
    cbn [map]. apply fold_add_skip_zero; [now apply Forall_side|exact Hz]. }
  assert (Ea : total_ask_vol b = total_ask_vol b').
  { unfold total_ask_vol, b, b'. rewrite !asks_do_calls. cbn [new_OrderBook asks app].
    rewrite !filter_app, !map_app. cbn [filter].
    destruct (c_is_ask c); [|reflexivity].
    cbn [map]. apply fold_add_skip_zero; [now apply Forall_side|exact Hz]. }
  repeat split; trivial.
  - rewrite !get_imbalance_of, Eb, Ea. reflexivity.
  - unfold b, b', size. rewrite !bids_do_calls, !asks_do_calls.
    cbn [new_OrderBook bids asks app].
    rewrite !filter_app, !map_app, !length_app, !length_map. cbn [filter].
    unfold c_is_ask. destruct (c_is_bid c); cbn [negb length]; lia.
Qed.

Lemma zero_quantity_is_neutral_witness :
  get_imbalance
    (do_calls ([mkCall (dbl 1) (dbl 80) true] ++
               mkCall (dbl 1) Double.zero true :: [mkCall (dbl 1) (dbl 20) false])
       new_OrderBook)
  = get_imbalance
      (do_calls ([mkCall (dbl 1) (dbl 80) true] ++ [mkCall (dbl 1) (dbl 20) false])
         new_OrderBook).
Proof.
  refine (proj1 (proj2 (proj2 (zero_quantity_is_neutral
    [mkCall (dbl 1) (dbl 80) true] [mkCall (dbl 1) (dbl 20) false]
    (mkCall (dbl 1) Double.zero true) _ _))));
    [repeat constructor | reflexivity].
Defined.
